(** * zerotrace: the measurement server's handlers and the 0trace session engine

    The development has two halves.  Part I embeds the program: the Go
    runtime pieces the handlers lean on ([Go]), the stand-alone test server
    of [cmd/test-server/main.go] ([TestServer]), the HTTP handlers of the
    main server ([Handlers]) and the probing engine ([Engine]).  Part II
    states and proves the properties.

    Conventions.  A Go [int], [int64], [time.Duration] or flag word is a [Z];
    a [uint64] is a [Z] reduced modulo [2^64]; a [float64] is a primitive
    IEEE-754 binary64 [float]; a [string] is a [string]; a [[]byte] is a
    [list byte].  A call that returns [(T, error)] returns a [result T].
    Handlers run in the state monad [IO] over a [World] that holds the clock,
    the file system, the response under construction and the trace of
    connection-level events.  The goroutine-per-request concurrency of
    [net/http] is not modelled: one handler invocation is one run of [IO]. *)

From Stdlib Require Import ZArith String Ascii Strings.Byte PrimFloat Uint63 List Lia.
From Stdlib Require SpecFloat FloatOps.
From stdpp Require Import base option list strings gmap pretty.

Local Open Scope Z_scope.

(* ===================================================================== *)
(** * Part I: the program                                                  *)
(* ===================================================================== *)

(** ** Go runtime and standard packages used by the handlers *)
Module Go.

(** A call returning [(T, error)]: the value, or the error's message. *)
Inductive result (A : Type) : Type :=
| Ok (a : A)
| Err (msg : string).
Arguments Ok {A} a.
Arguments Err {A} msg.

Definition is_ok {A} (r : result A) : bool :=
  match r with Ok _ => true | Err _ => false end.

(** [uint64] arithmetic wraps. *)
Definition uint64 (z : Z) : Z := z mod 2 ^ 64.

(** [float64(v)] for an [int64] [v]; [of_uint63] rounds to nearest. *)
Definition float64_of_int64 (v : Z) : float :=
  if v <? 0 then
    if v =? - 2 ^ 63
    then PrimFloat.opp (PrimFloat.mul (of_uint63 (Uint63.of_Z (2 ^ 62))) 2%float)
    else PrimFloat.opp (of_uint63 (Uint63.of_Z (- v)))
  else of_uint63 (Uint63.of_Z v).

(** Package [time]: durations are nanosecond counts. *)
Definition Millisecond : Z := 1000000.
Definition Second : Z := 1000 * Millisecond.

(** Package [strings]. *)
Fixpoint strings_Contains (s substr : string) : bool :=
  String.prefix substr s ||
  match s with
  | EmptyString => false
  | String _ s' => strings_Contains s' substr
  end.

Definition newline : string := String (ascii_of_nat 10) EmptyString.

(** [fmt.Sprintln]: operands separated by a space, a newline after them.
    Operands are given already formatted with [%v]. *)
Fixpoint join_sp (args : list string) : string :=
  match args with
  | [] => ""
  | [a] => a
  | a :: rest => a +:+ " " +:+ join_sp rest
  end.

Definition fmt_Sprintln (args : list string) : string :=
  join_sp args +:+ newline.

(** Package [os]: open flags (Linux values) and files. *)
Definition O_WRONLY : Z := 1.
Definition O_CREATE : Z := 64.
Definition O_TRUNC : Z := 512.
Definition O_APPEND : Z := 1024.

Definition has_flag (flag bit : Z) : bool := negb (Z.land flag bit =? 0).

Record File := { fname : string; fflag : Z }.

(** Package [log]. *)
Definition Ldate : Z := 1.
Definition Ltime : Z := 2.
Definition Lmicroseconds : Z := 4.

Record Logger := { out : File; prefix : string; flag : Z }.

Definition log_New (f : File) (pre : string) (fl : Z) : Logger :=
  {| out := f; prefix := pre; flag := fl |}.

(** Package [net/http]: the request fields the handlers read. *)
Record Request := {
  Path : string;
  Method : string;
  RemoteAddr : string;
  (** [r.URL.Query()]: a [map[string][]string]. *)
  Query : gmap string (list string)
}.

(** The response writer keeps what the handler has written to it: the
    status and the body.  What [net/http] does with a write once the
    connection has been taken over by a WebSocket upgrade is not told
    apart. *)
Record ResponseWriter := {
  status : option Z;
  body : string
}.

Definition StatusBadRequest : Z := 400.
Definition StatusNotFound : Z := 404.
Definition StatusInternalServerError : Z := 500.
Definition StatusNotImplemented : Z := 501.

(** Connection-level events, in program order. *)
Inductive Event : Type :=
| EvDial (dst : string) (timeout : Z) (r : result nat)
| EvConnClose (c : nat)
| EvWsRead (c : nat) (mt : Z) (p : list byte)
| EvWsReadErr (c : nat) (e : string)
| EvWsWrite (c : nat) (mt : Z) (p : list byte) (r : result unit)
| EvWsClose (c : nat)
| EvValidUUID (u : string) (valid : bool)
| EvNewZeroTrace (iface : string) (c : nat) (uuid : string)
| EvRun (c : nat) (uuid : string) (r : result unit).

(** Package [gorilla/websocket]: one [ReadMessage] on a connection, and
    what the [WriteMessage] that may follow it returns. *)
Inductive WsRead : Type :=
| RdMsg (mt : Z) (message : list byte) (write : result unit)
| RdErr (e : string).

Record World := {
  now : Z;
  files : gmap string string;
  offsets : gmap string nat;
  denied : gset string;
  resp : ResponseWriter;
  trace : list Event;
  (** [math/rand]: the seed and the number of draws since seeding. *)
  seed : Z;
  draws : nat;
  (** how many dials and UUID draws have been made *)
  dials : nat;
  uuids : nat
}.

(** What may happen when a piece of the program runs: it returns, it
    panics, it ends the process ([os.Exit], [log.Fatal]), or (a read loop
    run against a finite script) it is still waiting for the peer. *)
Inductive outcome (A : Type) : Type :=
| Ret (a : A)
| Panic (msg : string)
| Exit (code : Z)
| Blocked.
Arguments Ret {A} a.
Arguments Panic {A} msg.
Arguments Exit {A} code.
Arguments Blocked {A}.

Definition IO (A : Type) : Type := World -> outcome A * World.

Definition io_ret {A} (a : A) : IO A := fun w => (Ret a, w).

Definition io_bind {A B} (f : A -> IO B) (m : IO A) : IO B :=
  fun w =>
    match m w with
    | (Ret a, w') => f a w'
    | (Panic msg, w') => (Panic msg, w')
    | (Exit code, w') => (Exit code, w')
    | (Blocked, w') => (Blocked, w')
    end.

#[global] Instance IO_ret : MRet IO := @io_ret.
#[global] Instance IO_bind : MBind IO := @io_bind.

Definition get : IO World := fun w => (Ret w, w).
Definition modify (f : World -> World) : IO unit := fun w => (Ret tt, f w).
Definition panic {A} (msg : string) : IO A := fun w => (Panic msg, w).
Definition os_Exit {A} (code : Z) : IO A := fun w => (Exit code, w).
Definition block {A} : IO A := fun w => (Blocked, w).

(** [defer d] before a body: [d] runs when the body returns or panics. *)
Definition deferred {A} (d : World -> World) (m : IO A) : IO A := fun w =>
  match m w with
  | (Ret a, w') => (Ret a, d w')
  | (Panic msg, w') => (Panic msg, d w')
  | other => other
  end.

Definition set_now (t : Z) (w : World) : World :=
  {| now := t; files := files w; offsets := offsets w; denied := denied w;
     resp := resp w; trace := trace w; seed := seed w; draws := draws w;
     dials := dials w; uuids := uuids w |}.
Definition set_fs (fs : gmap string string) (os : gmap string nat) (w : World) : World :=
  {| now := now w; files := fs; offsets := os; denied := denied w;
     resp := resp w; trace := trace w; seed := seed w; draws := draws w;
     dials := dials w; uuids := uuids w |}.
Definition set_resp (r : ResponseWriter) (w : World) : World :=
  {| now := now w; files := files w; offsets := offsets w; denied := denied w;
     resp := r; trace := trace w; seed := seed w; draws := draws w;
     dials := dials w; uuids := uuids w |}.
Definition emit (e : Event) (w : World) : World :=
  {| now := now w; files := files w; offsets := offsets w; denied := denied w;
     resp := resp w; trace := trace w ++ [e]; seed := seed w; draws := draws w;
     dials := dials w; uuids := uuids w |}.
Definition set_rand (s : Z) (n : nat) (w : World) : World :=
  {| now := now w; files := files w; offsets := offsets w; denied := denied w;
     resp := resp w; trace := trace w; seed := s; draws := n;
     dials := dials w; uuids := uuids w |}.
Definition set_dials (n : nat) (w : World) : World :=
  {| now := now w; files := files w; offsets := offsets w; denied := denied w;
     resp := resp w; trace := trace w; seed := seed w; draws := draws w;
     dials := n; uuids := uuids w |}.
Definition set_uuids (n : nat) (w : World) : World :=
  {| now := now w; files := files w; offsets := offsets w; denied := denied w;
     resp := resp w; trace := trace w; seed := seed w; draws := draws w;
     dials := dials w; uuids := n |}.

(** [time.Now()]. *)
Definition time_Now : IO Z := fun w => (Ret (now w), w).

(** [os.OpenFile(name, flag, perm)]: fails on a path the process may not
    open and on a missing file without [O_CREATE]; creates the file empty
    with [O_CREATE]; empties it with [O_TRUNC]; the offset starts at 0. *)
Definition os_OpenFile (name : string) (fl : Z) : IO (result File) := fun w =>
  if decide (name ∈ denied w) then
    (Ret (Err ("open " +:+ name +:+ ": permission denied")), w)
  else
    match files w !! name with
    | None =>
        if has_flag fl O_CREATE then
          (Ret (Ok {| fname := name; fflag := fl |}),
           set_fs (<[name := ""]> (files w)) (<[name := 0%nat]> (offsets w)) w)
        else (Ret (Err ("open " +:+ name +:+ ": no such file or directory")), w)
    | Some old =>
        (Ret (Ok {| fname := name; fflag := fl |}),
         set_fs (if has_flag fl O_TRUNC then <[name := ""]> (files w) else files w)
                (<[name := 0%nat]> (offsets w)) w)
    end.

(** [f.Write(data)]: with [O_APPEND] the data goes after the current end
    of the file whatever the offset; otherwise it replaces the bytes at
    the offset. *)
Definition file_Write (f : File) (data : string) : IO unit := fun w =>
  let old := default "" (files w !! fname f) in
  if has_flag (fflag f) O_APPEND then
    (Ret tt, set_fs (<[fname f := old +:+ data]> (files w)) (offsets w) w)
  else
    let off := default 0%nat (offsets w !! fname f) in
    let n := String.length data in
    let new := String.substring 0 off old +:+ data
               +:+ String.substring (off + n) (String.length old - (off + n)) old in
    (Ret tt, set_fs (<[fname f := new]> (files w))
                    (<[fname f := (off + n)%nat]> (offsets w)) w).

(** [w.WriteHeader], [w.Write], [http.Error], [http.NotFound]. *)
Definition w_WriteHeader (code : Z) : IO unit :=
  modify (fun w =>
    match status (resp w) with
    | Some _ => w
    | None => set_resp {| status := Some code; body := body (resp w) |} w
    end).

Definition w_Write (b : string) : IO unit :=
  modify (fun w =>
    set_resp {| status := Some (default 200 (status (resp w)));
                body := body (resp w) +:+ b |} w).

Definition http_Error (msg : string) (code : Z) : IO unit :=
  _ ← w_WriteHeader code; w_Write (msg +:+ newline).

Definition http_NotFound : IO unit :=
  http_Error "404 page not found" StatusNotFound.

Definition http_StatusText (code : Z) : string :=
  if code =? 501 then "Not Implemented"
  else if code =? 500 then "Internal Server Error"
  else if code =? 404 then "Not Found"
  else if code =? 400 then "Bad Request"
  else "".

(** [time.Time.Sub]: the difference, saturated to the [int64] range. *)
Definition time_Sub (t u : Z) : Z :=
  Z.max (- 2 ^ 63) (Z.min (2 ^ 63 - 1) (t - u)).

(** [log.Logger.Println].  The header is the prefix followed, when a date
    or time flag is set, by the formatted instant; how the instant is
    formatted is left to the package ([log_stamp]).  [Sprintln] output ends
    in a newline, so [Output] adds none. *)
Class LogStamp := log_stamp : Z -> Z -> string.

Definition log_header `{!LogStamp} (l : Logger) (t : Z) : string :=
  prefix l +:+
  (if Z.land (flag l) (Z.lor Ldate (Z.lor Ltime Lmicroseconds)) =? 0
   then "" else log_stamp (flag l) t).

Definition Println `{!LogStamp} (l : Logger) (args : list string) : IO unit :=
  t ← time_Now;
  file_Write (out l) (log_header l t +:+ fmt_Sprintln args).

(** The world a [Println] leaves behind. *)
Definition logged `{!LogStamp} (l : Logger) (args : list string) (w : World) : World :=
  (Println l args w).2.

(** A run of events echoes: after the read of a message whose payload
    parses, and before any further read, the same payload is written back
    with the same message type on the same connection. *)
Definition is_ws_read (e : Event) : bool :=
  match e with
  | EvWsRead _ _ _ | EvWsReadErr _ _ => true
  | _ => false
  end.

Definition echoes (parses : list byte -> Prop) (evs : list Event) : Prop :=
  forall pre c mt p post,
    evs = pre ++ EvWsRead c mt p :: post -> parses p ->
    exists mid wr post',
      post = mid ++ EvWsWrite c mt p wr :: post' /\
      Forall (fun e => is_ws_read e = false) mid.

(** Every file of [w] is still there in [w'], with its content as a
    prefix of the new content: nothing that was written has been
    overwritten. *)
Definition grows (w w' : World) : Prop :=
  forall path old, files w !! path = Some old ->
    exists added, files w' !! path = Some (old +:+ added).

(** [log.Fatal]: print, then [os.Exit(1)].  The standard logger writes to
    standard error, which the world does not keep. *)
Definition log_Fatal {A} (msg : string) : IO A := os_Exit 1.

(** [encoding/json].  [json.Marshal] is an interface of the package, one
    instance per marshalled type; a decoded value is a [JValue] (the
    handlers never look inside an array or an object, which keep their
    text). *)
Class JsonMarshal (A : Type) := json_Marshal : A -> result string.

Inductive JValue : Type :=
| JNil
| JBool (b : bool)
| JNumber (f : float)
| JString (s : string)
| JArray (text : string)
| JObject (text : string).

(** The encoder writes a value on one line: its output holds no newline.
    [encoding/json] escapes the control characters of strings and puts no
    white space between tokens. *)
Definition compact (A : Type) `{!JsonMarshal A} : Prop :=
  forall (a : A) js, json_Marshal a = Ok js -> strings_Contains js newline = false.

(** [json.Unmarshal(data, &m)] for [m] a [map[string]interface{}]. *)
Class JsonUnmarshal := json_Unmarshal : list byte -> result (gmap string JValue).

(** The payload parses as a JSON object. *)
Definition parses `{!JsonUnmarshal} (p : list byte) : Prop :=
  is_ok (json_Unmarshal p) = true.

(** [m[k]] on a [map[string]interface{}]: [nil] for a missing key (and on
    the nil map). *)
Definition index (m : gmap string JValue) (k : string) : JValue :=
  default JNil (m !! k).

(** [v != s] between an interface value and a string constant. *)
Definition iface_neq_string (v : JValue) (s : string) : bool :=
  match v with
  | JString t => negb (String.eqb t s)
  | _ => true
  end.

(** [v.(string)]: the type assertion with the comma-ok form. *)
Definition assert_string (v : JValue) : option string :=
  match v with
  | JString t => Some t
  | _ => None
  end.

End Go.

(** ** The stand-alone test server, [cmd/test-server/main.go] *)
Module TestServer.
Import Go.

Definition ICMPCount : Z := 5.
Definition ICMPTimeout : Z := Second * 10.
Definition TCPCounter : Z := 5.
Definition TCPTimeout : Z := 1000 * Millisecond.
Definition TCPInterval : Z := 1100 * Millisecond.

Definition PortsToTest : list Z := [53; 80; 443; 3389; 8080; 8443; 9100].

Module RtItem.
Record t := {
  IP : string;
  PktSent : Z;
  PktRecv : Z;
  PktLoss : float;
  MinRtt : float;
  AvgRtt : float;
  MaxRtt : float;
  StdDevRtt : float
}.
End RtItem.

Module tcpProbeResult.
Record t := {
  Destination : string;
  SequenceNumber : Z;
  Timeinms : float
}.
End tcpProbeResult.

Module tcpResult.
Record t := {
  Destination : string;
  TimesInms : list float;
  MinRtt : float;
  AvgRtt : float;
  MaxRtt : float;
  StdDevRtt : float
}.
End tcpResult.

Module Results.
Record t := {
  UUID : string;
  IPaddr : string;
  IcmpPing : list RtItem.t;
  TcpPing : list tcpResult.t
}.
End Results.

(** What the packages outside the repository compute or report.  The
    functions of [montanaflynn/stats], [net], [math/rand], [google/uuid],
    [html/template], [go-ping/ping] and [gorilla/websocket] are taken as
    they are; the network's answers are indexed by the order of the calls. *)
Module ping.
Record Statistics := {
  PacketsSent : Z;
  PacketsRecv : Z;
  PacketLoss : float;
  MinRtt : Z;
  AvgRtt : Z;
  MaxRtt : Z;
  StdDevRtt : Z
}.
End ping.

Record Dialed := {
  (** time the dial took, in nanoseconds *)
  took : Z;
  (** the connection, or the error *)
  conn : result nat
}.

Class Env := {
  stats_Min : list float -> float;
  stats_Mean : list float -> float;
  stats_Max : list float -> float;
  stats_StandardDeviation : list float -> float;
  net_SplitHostPort : string -> string;
  rand_Uint32 : Z -> nat -> Z;
  uuid_NewString : nat -> string;
  template_Execute : Results.t -> string;
  ping_NewPinger : string -> result unit;
  ping_Run : string -> Z -> Z -> Z * result ping.Statistics;
  net_DialTimeout : nat -> string -> Z -> Dialed;
  websocket_Upgrade : Request -> result nat;
  env_stamp :: LogStamp;
  env_unmarshal :: JsonUnmarshal;
  env_marshal_probe :: JsonMarshal tcpProbeResult.t;
  env_marshal_results :: JsonMarshal Results.t
}.

Section Server.
Context `{!Env}.
(** The package-level loggers, set by [main] before any handler runs. *)
Variables InfoLogger ErrLogger : Logger.

(** Implementing this since Golang time.Milliseconds() function only
    returns an int64 value. *)
Definition fmtTimeMs (value : Z) : float :=
  PrimFloat.div (float64_of_int64 value) (float64_of_int64 Millisecond).

Definition getStats (arr : list float) : float * float * float * float :=
  let data := arr in
  let min := stats_Min data in
  let avg := stats_Mean data in
  let max := stats_Max data in
  let stddev := stats_StandardDeviation data in
  (min, avg, max, stddev).

(** [net.DialTimeout("tcp", dst, timeout)]: the next answer of the
    network; the clock moves by the time the dial took. *)
Definition DialTimeout (dst : string) (timeout : Z) : IO (result nat) := fun w =>
  let d := net_DialTimeout (dials w) dst timeout in
  (Ret (conn d),
   emit (EvDial dst timeout (conn d)) (set_now (now w + took d) (set_dials (S (dials w)) w))).

Definition conn_Close (c : nat) : IO unit := modify (emit (EvConnClose c)).

(** Function that sends out TcpPing.  The deferred [conn.Close()] runs
    when the function returns. *)
Definition pingTcp (dst : string) (seq : Z) (timeout : Z) : IO float :=
  startTime ← time_Now;
  r ← DialTimeout dst timeout;
  endTime ← time_Now;
  if match r with
     | Ok _ => true
     | Err e => strings_Contains e "connection refused"
     end
  then
    let t := fmtTimeMs (time_Sub endTime startTime) in
    let result := {| tcpProbeResult.Destination := dst;
                     tcpProbeResult.SequenceNumber := seq;
                     tcpProbeResult.Timeinms := t |} in
    _ ← match json_Marshal result with
        | Err parseErr => Println ErrLogger ["JSON Error in TCPing: "; parseErr]
        | Ok resultJson =>
            let resultString := resultJson in
            Println ErrLogger [resultString]
        end;
    _ ← match r with
        | Ok c => conn_Close c
        | Err _ => mret tt
        end;
    mret t
  else
    _ ← Println ErrLogger [dst; " connection failed with:";
                           match r with Err e => e | Ok _ => "" end];
    mret 0%float.

(** The world after the next dial, and what [pingTcp] prints for a probe
    it counts as measured. *)
Definition dialed (dst : string) (timeout : Z) (w : World) : World :=
  (DialTimeout dst timeout w).2.

Definition probe_line (dst : string) (seq : Z) (t : float) : list string :=
  match json_Marshal {| tcpProbeResult.Destination := dst;
                        tcpProbeResult.SequenceNumber := seq;
                        tcpProbeResult.Timeinms := t |} with
  | Err parseErr => ["JSON Error in TCPing: "; parseErr]
  | Ok resultJson => [resultJson]
  end.

(** [rec] is the record of the port [port] when the port's first dial is
    dial number [base]: its sample has one value per probe, the value is 0
    where the dial failed with an error other than a refusal, and the
    statistics are those of that sample. *)
Definition port_record (clientIP : string) (port : Z) (base : nat)
    (rec : tcpResult.t) : Prop :=
  tcpResult.Destination rec = clientIP +:+ ":" +:+ pretty port /\
  length (tcpResult.TimesInms rec) = Z.to_nat TCPCounter /\
  (tcpResult.MinRtt rec, tcpResult.AvgRtt rec, tcpResult.MaxRtt rec,
   tcpResult.StdDevRtt rec) = getStats (tcpResult.TimesInms rec) /\
  forall x msg, (x < Z.to_nat TCPCounter)%nat ->
    conn (net_DialTimeout (base + x) (tcpResult.Destination rec) TCPTimeout) = Err msg ->
    strings_Contains msg "connection refused" = false ->
    tcpResult.TimesInms rec !! x = Some 0%float.

(** [rand.Seed(time.Now().UnixNano())] and [rand.Uint32()]. *)
Definition rand_Seed : IO unit := modify (fun w => set_rand (now w) 0 w).

Definition rand_draw : IO Z := fun w =>
  (Ret (rand_Uint32 (seed w) (draws w)), set_rand (seed w) (S (draws w)) w).

Definition uuid_New : IO string := fun w =>
  (Ret (uuid_NewString (uuids w)), set_uuids (S (uuids w)) w).

(** [pinger.Run()] blocks until finished; the clock moves by the time it
    took. *)
Definition pinger_Run (addr : string) (count timeout : Z)
  : IO (result ping.Statistics) := fun w =>
  let '(d, r) := ping_Run addr count timeout in
  (Ret r, set_now (now w + d) w).

(** [<-ticker.C]: the receive ends at the next tick, at once when that
    instant has passed.  Only the clock depends on the ticker; ticks
    dropped for a slow receiver are not told apart.  [next] is the instant
    of the next tick. *)
Definition ticker_recv (next : Z) : IO Z := fun w =>
  (Ret (Z.max (now w) next + TCPInterval), set_now (Z.max (now w) next) w).

(** The inner loop of the TCP pinger, [for x := 0; x < TCPCounter; x++],
    with [n] iterations left. *)
Fixpoint probeLoop (n : nat) (dst : string) (seqNumber : Z) (next : Z)
    (tResult : list float) : IO (list float) :=
  match n with
  | O => mret tResult
  | S n' =>
      let seqNumber := uint64 (seqNumber + 1) in
      next ← ticker_recv next;
      t ← pingTcp dst seqNumber TCPTimeout;
      probeLoop n' dst seqNumber next (tResult ++ [t])
  end.

(** The outer loop, [for _, port := range PortsToTest]. *)
Fixpoint portLoop (ports : list Z) (clientIP : string)
    (tcpResultArr : list tcpResult.t) : IO (list tcpResult.t) :=
  match ports with
  | [] => mret tcpResultArr
  | port :: ports' =>
      u ← rand_draw;
      let seqNumber := uint64 u in
      let dst := clientIP +:+ ":" +:+ pretty port in
      t0 ← time_Now;
      tResult ← probeLoop (Z.to_nat TCPCounter) dst seqNumber (t0 + TCPInterval) [];
      let '(min, avg, max, stddev) := getStats tResult in
      portLoop ports' clientIP
        (tcpResultArr ++
         [{| tcpResult.Destination := dst; tcpResult.TimesInms := tResult;
             tcpResult.MinRtt := min; tcpResult.AvgRtt := avg;
             tcpResult.MaxRtt := max; tcpResult.StdDevRtt := stddev |}])
  end.

(** The end of [pingHandler], once the results are combined: the record
    is marshalled, logged and rendered. *)
Definition respond (results : Results.t) : IO unit :=
  match json_Marshal results with
  | Err err => http_Error err StatusInternalServerError
  | Ok jsObj =>
      let resultString := jsObj in
      _ ← Println InfoLogger [resultString];
      w_Write (template_Execute results)
  end.

(** Handler for ICMP and TCP measurements which also serves the webpage
    via a template. *)
Definition pingHandler (r : Request) : IO unit :=
  if negb (String.eqb (Path r) "/ping") then http_NotFound
  else if negb (String.eqb (Method r) "GET") then
    _ ← w_WriteHeader StatusNotImplemented;
    w_Write (http_StatusText StatusNotImplemented)
  else
    let clientIPstr := RemoteAddr r in
    let clientIP := net_SplitHostPort clientIPstr in
    expUUID ← uuid_New;
    match ping_NewPinger clientIP with
    | Err err => panic err
    | Ok _ =>
        ran ← pinger_Run clientIP ICMPCount ICMPTimeout;
        match ran with
        | Err err => panic err
        | Ok stat =>
            let icmp :=
              [{| RtItem.IP := clientIP;
                  RtItem.PktSent := ping.PacketsSent stat;
                  RtItem.PktRecv := ping.PacketsRecv stat;
                  RtItem.PktLoss := ping.PacketLoss stat;
                  RtItem.MinRtt := fmtTimeMs (ping.MinRtt stat);
                  RtItem.AvgRtt := fmtTimeMs (ping.AvgRtt stat);
                  RtItem.MaxRtt := fmtTimeMs (ping.MaxRtt stat);
                  RtItem.StdDevRtt := fmtTimeMs (ping.StdDevRtt stat) |}] in
            _ ← rand_Seed;
            tcpResultArr ← portLoop PortsToTest clientIP [];
            let results :=
              {| Results.UUID := expUUID; Results.IPaddr := clientIP;
                 Results.IcmpPing := icmp; Results.TcpPing := tcpResultArr |} in
            match json_Marshal results with
            | Err err => http_Error err StatusInternalServerError
            | Ok jsObj =>
                let resultString := jsObj in
                _ ← Println InfoLogger [resultString];
                w_Write (template_Execute results)
            end
        end
    end.

(** The read loop of [echoHandler], run against what the peer sends.  When
    the script is used up the handler is waiting in [ReadMessage]. *)
Fixpoint echoLoop (c : nat) (script : list WsRead) : IO unit :=
  match script with
  | [] => block
  | RdErr err :: _ =>
      _ ← modify (emit (EvWsReadErr c err));
      Println ErrLogger ["read:"; err]
  | RdMsg mt message wr :: script' =>
      _ ← modify (emit (EvWsRead c mt message));
      let wsData :=
        match json_Unmarshal message with
        | Ok m => m
        | Err _ => ∅
        end in
      _ ← (if iface_neq_string (index wsData "type") "ws-latency"
           then Println InfoLogger [string_of_list_byte message]
           else mret tt);
      _ ← modify (emit (EvWsWrite c mt message wr));
      match wr with
      | Err err => Println ErrLogger ["write:"; err]
      | Ok _ => echoLoop c script'
      end
  end.

(** Handler for the echo webserver that speaks WebSocket.  The deferred
    [c.Close()] runs when the loop is left. *)
Definition echoHandler (r : Request) (script : list WsRead) : IO unit :=
  if negb (String.eqb (Path r) "/echo") then http_NotFound
  else if negb (String.eqb (Method r) "GET") then
    _ ← w_WriteHeader StatusNotImplemented;
    w_Write (http_StatusText StatusNotImplemented)
  else
    match websocket_Upgrade r with
    | Err err => Println ErrLogger ["upgrade:"; err]
    | Ok c => deferred (emit (EvWsClose c)) (echoLoop c script)
    end.

End Server.

(** [main] up to the point where the server starts to listen: the two log
    files are opened and the loggers built.  The arguments are the values
    of the [-logfile] and [-errlog] flags, when given. *)
Definition logFlags : Z := Z.lor O_APPEND (Z.lor O_CREATE O_WRONLY).

Definition main `{!Env} (logfile errlog : option string) : IO (Logger * Logger) :=
  let logfilePath := default "logFile.jsonl" logfile in
  let errlogPath := default "errlog.txt" errlog in
  opened ← os_OpenFile logfilePath logFlags;
  match opened with
  | Err err => log_Fatal err
  | Ok file =>
      opened' ← os_OpenFile errlogPath logFlags;
      match opened' with
      | Err err => log_Fatal err
      | Ok errFile =>
          let InfoLogger := log_New file "" 0 in
          let ErrLogger := log_New errFile "" (Z.lor Ldate Ltime) in
          mret (InfoLogger, ErrLogger)
      end
  end.

End TestServer.

(** ** The 0trace probing engine

    The engine ([newZeroTrace], [Run] and what they call) is not among the
    source files: only its caller, [traceHandler], is.  The definitions of
    this module follow the design document, section by section. *)
Module Engine.
Import Go.

Definition IP : Type := string.
Definition Token : Type := Z.

(** Modelled from the spec: the engine's data model is missing from the
    sources.  The status of a hop is one of {answered, timeout,
    unreachable}. *)
Inductive Status : Type := answered | timeout | unreachable.

(** Modelled from the spec: HopResult: {ttl, responderIP: optional address, rtt: optional
    non-negative duration, status}. *)
Record HopResult := {
  ttl : nat;
  responderIP : option IP;
  rtt : option Z;
  status : Status
}.

(** Modelled from the spec: Probe: {ttl, token, sentAt}. *)
Record Probe := {
  probe_ttl : nat;
  token : Token;
  sentAt : Z
}.

(** Modelled from the spec: the states of the probing state machine,
    [Idle → Probing(ttl) → AwaitingResponse(ttl) → {HopRecorded(ttl) |
    HopTimedOut(ttl)} → Probing(ttl+1) → … → Completed | Aborted]. *)
Inductive State : Type :=
| Idle
| Probing (t : nat)
| AwaitingResponse (t : nat)
| HopRecorded (t : nat)
| HopTimedOut (t : nat)
| Completed
| Aborted.

(** Modelled from the spec: TraceSession: {sessionID, targetIP, connection
    handle, hops, state, startedAt, endedAt}. *)
Record TraceSession := {
  sessionID : string;
  targetIP : IP;
  connection : nat;
  hops : list HopResult;
  state : State;
  startedAt : Z;
  endedAt : option Z
}.

(** Modelled from the spec: the error taxonomy of section 7. *)
Inductive Error : Type :=
| ConfigurationError
| ConnectionClosedError
| ProbeTimeoutError
| MaxHopsExceededError
| MalformedPacketError
| TokenCollisionError.

(** Modelled from the spec: TraceResult = {sessionID, targetIP, hops,
    completed}. *)
Record TraceResult := {
  res_sessionID : string;
  res_targetIP : IP;
  res_hops : list HopResult;
  completed : bool
}.

(** Modelled from the spec: the configuration the state machine refers
    to: the TTL floor (default 1), the maximum hop count and the fixed
    per-hop timeout. *)
Record Config := {
  floor : nat;
  maxHops : nat;
  hopTimeout : Z
}.

Definition defaultConfig : Config :=
  {| floor := 1; maxHops := 30; hopTimeout := 1000 * Millisecond |}.

(** *** Probe Registry *)

(** Modelled from the spec: a registry entry maps a token to the
    pending-response handle: the session that waits (named by its
    connection), the probe, and the deadline after which the reaper may
    evict it. *)
Record Pending := {
  owner : nat;
  probe : Probe;
  deadline : Z
}.

Definition Registry : Type := list (Token * Pending).

Definition is_pending (tok : Token) (r : Registry) : bool :=
  bool_decide (tok ∈ r.*1).

(** Modelled from the spec: insertion by a Sender.  If two pending probes
    would share a token, the later registration is rejected. *)
Definition register (tok : Token) (e : Pending) (r : Registry) : Error + Registry :=
  if is_pending tok r then inl TokenCollisionError else inr (r ++ [(tok, e)]).

Fixpoint find (tok : Token) (r : Registry) : option Pending :=
  match r with
  | [] => None
  | (t, e) :: r' => if decide (t = tok) then Some e else find tok r'
  end.

Definition remove (tok : Token) (r : Registry) : Registry :=
  filter (fun x => x.1 ≠ tok) r.

(** Modelled from the spec: removal by the Response Listener on a match. *)
Definition resolve (tok : Token) (r : Registry) : option (Pending * Registry) :=
  match find tok r with
  | Some e => Some (e, remove tok r)
  | None => None
  end.

(** Modelled from the spec: the reaper evicts entries whose deadline has
    passed. *)
Definition reap (t : Z) (r : Registry) : Registry :=
  filter (fun x => t < deadline x.2) r.

(** Modelled from the spec: an aborted session releases its pending
    entries. *)
Definition release (o : nat) (r : Registry) : Registry :=
  filter (fun x => owner x.2 ≠ o) r.

(** Modelled from the spec: the operations any session, the listener or
    the reaper may apply to the shared registry; the registry is guarded
    against races on insert, match and evict, so each is atomic and an
    execution is an interleaving of them. *)
Inductive RegOp : Type :=
| OpRegister (tok : Token) (e : Pending)
| OpResolve (tok : Token)
| OpReap (t : Z)
| OpRelease (o : nat).

Definition apply_op (r : Registry) (op : RegOp) : Registry :=
  match op with
  | OpRegister tok e =>
      match register tok e r with
      | inl _ => r
      | inr r' => r'
      end
  | OpResolve tok =>
      match resolve tok r with
      | Some (_, r') => r'
      | None => r
      end
  | OpReap t => reap t r
  | OpRelease o => release o r
  end.

Definition run_ops (ops : list RegOp) (r : Registry) : Registry :=
  foldl apply_op r ops.

(** *** Response Listener: captured packets *)

Definition ICMPTimeExceeded : Z := 11.
Definition ICMPDestinationUnreachable : Z := 3.

(** Modelled from the spec: what the listener parses out of a captured
    packet: the ICMP type, the sender of the packet and, when the embedded
    copy of the original headers could be parsed, the probe token. *)
Record Packet := {
  icmpType : Z;
  src : IP;
  embedded : option Token
}.

Definition status_of_type (ty : Z) : option Status :=
  if ty =? ICMPTimeExceeded then Some answered
  else if ty =? ICMPDestinationUnreachable then Some unreachable
  else None.

(** *** Session state machine *)

(** Modelled from the spec: the session engine is missing from the
    sources.  One session together with what it shares with the rest of
    the engine: the registry and the clock.  [outstanding] is the probe the
    session waits for, if any. *)
Record Sys := {
  sess : TraceSession;
  outstanding : option Probe;
  reg : Registry;
  clock : Z
}.

Definition with_state (st : State) (s : TraceSession) : TraceSession :=
  {| sessionID := sessionID s; targetIP := targetIP s; connection := connection s;
     hops := hops s; state := st; startedAt := startedAt s; endedAt := endedAt s |}.

Definition record (h : HopResult) (st : State) (s : TraceSession) : TraceSession :=
  {| sessionID := sessionID s; targetIP := targetIP s; connection := connection s;
     hops := hops s ++ [h]; state := st; startedAt := startedAt s;
     endedAt := endedAt s |}.

(** Modelled from the spec: the Result Aggregator stamps [endedAt] when
    the session becomes [Completed] or [Aborted]. *)
Definition finish (st : State) (t : Z) (s : TraceSession) : TraceSession :=
  {| sessionID := sessionID s; targetIP := targetIP s; connection := connection s;
     hops := hops s; state := st; startedAt := startedAt s; endedAt := Some t |}.

Definition terminal (st : State) : bool :=
  match st with
  | Completed | Aborted => true
  | _ => false
  end.

(** Modelled from the spec: a session is created [Idle], with no hops. *)
Definition newSession (id : string) (target : IP) (c : nat) (t : Z) : TraceSession :=
  {| sessionID := id; targetIP := target; connection := c; hops := [];
     state := Idle; startedAt := t; endedAt := None |}.

Definition reached_target (s : TraceSession) : bool :=
  match last (hops s) with
  | Some h => bool_decide (responderIP h = Some (targetIP s))
  | None => false
  end.

(** Modelled from the spec: [Idle], entered on session creation with
    ttl = floor; the first transition is to [Probing(floor)]. *)
Definition start (cfg : Config) (y : Sys) : Sys :=
  match state (sess y) with
  | Idle =>
      {| sess := with_state (Probing (floor cfg)) (sess y);
         outstanding := outstanding y; reg := reg y; clock := clock y |}
  | _ => y
  end.

(** Modelled from the spec: [Probing(ttl)] invokes the Sender, which
    inserts {token → pending} with the current timestamp, and goes to
    [AwaitingResponse(ttl)].  On a token collision the registration is
    rejected and the TTL is retried: the session stays in [Probing(ttl)]. *)
Definition send (cfg : Config) (tok : Token) (y : Sys) : Sys :=
  match state (sess y) with
  | Probing t =>
      let p := {| probe_ttl := t; token := tok; sentAt := clock y |} in
      let e := {| owner := connection (sess y); probe := p;
                  deadline := clock y + hopTimeout cfg |} in
      match register tok e (reg y) with
      | inl _ => y
      | inr r =>
          {| sess := with_state (AwaitingResponse t) (sess y);
             outstanding := Some p; reg := r; clock := clock y |}
      end
  | _ => y
  end.

(** Modelled from the spec: the Response Listener.  A packet of another
    type, without a recoverable token or matching no entry is dropped.  On
    a match the entry is removed, RTT = now − sentAt, and the HopResult is
    delivered to the owning session: to this one if the token is that of
    its outstanding probe. *)
Definition listen (pkt : Packet) (y : Sys) : Sys :=
  match status_of_type (icmpType pkt), embedded pkt with
  | Some sta, Some tok =>
      match resolve tok (reg y) with
      | Some (e, r) =>
          match state (sess y), outstanding y with
          | AwaitingResponse t, Some p =>
              if decide (token p = tok) then
                let h := {| ttl := t; responderIP := Some (src pkt);
                            rtt := Some (clock y - sentAt p); status := sta |} in
                {| sess := record h (HopRecorded t) (sess y);
                   outstanding := None; reg := r; clock := clock y |}
              else {| sess := sess y; outstanding := outstanding y; reg := r;
                      clock := clock y |}
          | _, _ =>
              {| sess := sess y; outstanding := outstanding y; reg := r;
                 clock := clock y |}
          end
      | None => y
      end
  | _, _ => y
  end.

(** Modelled from the spec: the fixed per-hop timeout elapses in
    [AwaitingResponse(ttl)]: a HopResult with status=timeout is appended
    and the entry is evicted. *)
Definition expire (cfg : Config) (y : Sys) : Sys :=
  match state (sess y), outstanding y with
  | AwaitingResponse t, Some p =>
      if decide (sentAt p + hopTimeout cfg <= clock y) then
        let h := {| ttl := t; responderIP := None; rtt := None; status := timeout |} in
        {| sess := record h (HopTimedOut t) (sess y); outstanding := None;
           reg := remove (token p) (reg y); clock := clock y |}
      else y
  | _, _ => y
  end.

(** Modelled from the spec: from [HopRecorded]/[HopTimedOut]: if the
    responder IP equals the known target IP → [Completed].  Else if ttl+1
    exceeds the configured maximum hop count → [Completed].  Else →
    [Probing(ttl+1)]. *)
Definition advance (cfg : Config) (y : Sys) : Sys :=
  match state (sess y) with
  | HopRecorded t | HopTimedOut t =>
      if reached_target (sess y) then
        {| sess := finish Completed (clock y) (sess y);
           outstanding := outstanding y; reg := reg y; clock := clock y |}
      else if decide (maxHops cfg < t + 1)%nat then
        {| sess := finish Completed (clock y) (sess y);
           outstanding := outstanding y; reg := reg y; clock := clock y |}
      else
        {| sess := with_state (Probing (t + 1)) (sess y);
           outstanding := outstanding y; reg := reg y; clock := clock y |}
  | _ => y
  end.

(** Modelled from the spec: [Aborted], entered from any state if the
    underlying connection reports closure or error; the session keeps the
    hops collected so far and releases its pending registry entries.  No
    transition leaves [Completed] or [Aborted]. *)
Definition close (y : Sys) : Sys :=
  if terminal (state (sess y)) then y
  else
    {| sess := finish Aborted (clock y) (sess y); outstanding := None;
       reg := release (connection (sess y)) (reg y); clock := clock y |}.

Definition tick (d : Z) (y : Sys) : Sys :=
  {| sess := sess y; outstanding := outstanding y; reg := reg y;
     clock := clock y + Z.max 0 d |}.

Definition other (op : RegOp) (y : Sys) : Sys :=
  {| sess := sess y; outstanding := outstanding y; reg := apply_op (reg y) op;
     clock := clock y |}.

(** Modelled from the spec: the scheduling of section 5, one step at a
    time.  What can happen next: a transition of the session, a captured
    packet, time passing, or an operation of another party on the
    registry. *)
Inductive Action : Type :=
| AStart
| ASend (tok : Token)
| AListen (p : Packet)
| AExpire
| AAdvance
| AClose
| ATick (d : Z)
| AOther (op : RegOp).

Definition step (cfg : Config) (y : Sys) (a : Action) : Sys :=
  match a with
  | AStart => start cfg y
  | ASend tok => send cfg tok y
  | AListen pkt => listen pkt y
  | AExpire => expire cfg y
  | AAdvance => advance cfg y
  | AClose => close y
  | ATick d => tick d y
  | AOther op => other op y
  end.

Definition exec (cfg : Config) (acts : list Action) (y : Sys) : Sys :=
  foldl (step cfg) y acts.

Definition initial (id : string) (target : IP) (c : nat) (t : Z) (r : Registry) : Sys :=
  {| sess := newSession id target c t; outstanding := None; reg := r; clock := t |}.

(** The states a session can be in: those an execution leads to from a
    fresh session. *)
Definition reachable (cfg : Config) (y : Sys) : Prop :=
  exists id target c t r acts, y = exec cfg acts (initial id target c t r).

(** *** What holds of a session in every state *)

Definition short_of_target (s : TraceSession) (l : list HopResult) : Prop :=
  Forall (fun h => responderIP h <> Some (targetIP s)) l.

(** The TTLs of the hops count up from the floor without a gap; the TTL
    of the state is the next one to probe, or the one just recorded; and
    only the last hop can be the target's. *)
Definition session_inv (cfg : Config) (s : TraceSession) : Prop :=
  ttl <$> hops s = seq (floor cfg) (length (hops s)) /\
  match state s with
  | Idle => hops s = []
  | Probing t | AwaitingResponse t =>
      t = (floor cfg + length (hops s))%nat /\ short_of_target s (hops s)
  | HopRecorded t | HopTimedOut t =>
      hops s <> [] /\ S t = (floor cfg + length (hops s))%nat /\
      short_of_target s (removelast (hops s))
  | Completed => hops s <> [] /\ short_of_target s (removelast (hops s))
  | Aborted => short_of_target s (removelast (hops s))
  end.

(** The session has recorded the target's answer and waits, at most, to
    be completed. *)
Definition settled (s : TraceSession) : Prop :=
  reached_target s = true /\
  match state s with
  | HopRecorded _ | HopTimedOut _ | Completed | Aborted => True
  | _ => False
  end.

(** *** A whole trace under simulated network conditions *)

(** Modelled from the spec: the connection provider supplies a stream (the
    handle) with a peer address; the peer is the target of the trace. *)
Record Conn := {
  handle : nat;
  peer : IP
}.

(** Modelled from the spec: the token is derived from a
    connection-specific field; the layout is implementation-defined, so
    the derivation is a parameter: from the connection, the TTL and the
    number of the attempt. *)
Class TokenScheme := deriveToken : nat -> nat -> nat -> Token.

(** Modelled from the spec: the simulated network conditions of the
    testable properties: what happens to the probe of each TTL.  A reply is
    an ICMP packet of some type from some address, a delay after the
    probe. *)
Inductive Outcome : Type :=
| Replied (ty : Z) (from : IP) (delay : Z)
| Silent
| ClosedAtSend
| ClosedWhileWaiting (after : Z).

Definition Net : Type := nat -> Outcome.

(** The tokens a connection derives for one TTL differ from attempt to
    attempt: a retry comes with a new token. *)
Definition fresh_scheme `{!TokenScheme} : Prop :=
  forall c t a1 a2, deriveToken c t a1 = deriveToken c t a2 -> a1 = a2.

Section Run.
Context `{!TokenScheme} (cfg : Config) (net : Net).

(** Modelled from the spec: on a token collision the TTL is retried with
    a freshly derived token.  The Sender's retries: the first attempt
    whose token is accepted. *)
Fixpoint sendFresh (retries attempt : nat) (t : nat) (y : Sys) : Sys :=
  let y' := send cfg (deriveToken (connection (sess y)) t attempt) y in
  match state (sess y'), retries with
  | Probing _, S retries' => sendFresh retries' (S attempt) t y
  | _, _ => y'
  end.

(** Modelled from the spec: one TTL of the sweep: send, then wait for the
    reply or the timeout, whichever is first.  A reply later than the
    timeout finds no entry and is dropped. *)
Definition probeOnce (y : Sys) : Sys :=
  match state (sess y) with
  | Probing t =>
      match net t with
      | ClosedAtSend => close y
      | o =>
          let y1 := sendFresh (length (reg y)) 0 t y in
          match outstanding y1 with
          | None => y1
          | Some p =>
              match o with
              | Replied ty from d =>
                  if decide (d <= hopTimeout cfg) then
                    let pkt := {| icmpType := ty; src := from;
                                  embedded := Some (token p) |} in
                    let y2 := listen pkt (tick d y1) in
                    match outstanding y2 with
                    | None => y2
                    | Some _ => expire cfg (tick (hopTimeout cfg - Z.max 0 d) y2)
                    end
                  else expire cfg (tick (hopTimeout cfg) y1)
              | ClosedWhileWaiting d =>
                  if decide (d <= hopTimeout cfg) then close (tick d y1)
                  else close (tick (d - hopTimeout cfg)
                                (expire cfg (tick (hopTimeout cfg) y1)))
              | _ => expire cfg (tick (hopTimeout cfg) y1)
              end
          end
      end
  | _ => y
  end.

(** Modelled from the spec: the TTL sweep of one session, with at most
    [n] TTLs left to probe: TTL n+1 is not issued before TTL n resolves or
    times out. *)
Fixpoint sweep (n : nat) (y : Sys) : Sys :=
  match n with
  | O => y
  | S n' =>
      let y' := advance cfg (probeOnce y) in
      match state (sess y') with
      | Probing _ => sweep n' y'
      | _ => y'
      end
  end.

(** What the network conditions alone say about one TTL, with no token,
    registry or clock: the hop to record, or that the session aborts,
    after a last hop or not. *)
Definition timeout_hop (t : nat) : HopResult :=
  {| ttl := t; responderIP := None; rtt := None; status := timeout |}.

Inductive Verdict : Type :=
| Hop (h : HopResult)
| Abort (partial : list HopResult).

Definition verdict (t : nat) : Verdict :=
  match net t with
  | ClosedAtSend => Abort []
  | Replied ty from d =>
      if decide (d <= hopTimeout cfg) then
        match status_of_type ty with
        | Some sta =>
            Hop {| ttl := t; responderIP := Some from; rtt := Some (Z.max 0 d);
                   status := sta |}
        | None => Hop (timeout_hop t)
        end
      else Hop (timeout_hop t)
  | Silent => Hop (timeout_hop t)
  | ClosedWhileWaiting d =>
      if decide (d <= hopTimeout cfg) then Abort [] else Abort [timeout_hop t]
  end.

(** The hops and the final state those verdicts add up to, from TTL [t]
    on, with at most [n] TTLs. *)
Fixpoint expected (n : nat) (target : IP) (t : nat) : list HopResult * State :=
  match n with
  | O => ([], Probing t)
  | S n' =>
      match verdict t with
      | Abort part => (part, Aborted)
      | Hop h =>
          if bool_decide (responderIP h = Some target) then ([h], Completed)
          else if decide (maxHops cfg < t + 1)%nat then ([h], Completed)
          else let '(hs, st) := expected n' target (t + 1) in (h :: hs, st)
      end
  end.

(** Modelled from the spec: the Result Aggregator returns the finalized
    session to the caller as a TraceResult. *)
Definition finalize (s : TraceSession) : TraceResult :=
  {| res_sessionID := sessionID s; res_targetIP := targetIP s;
     res_hops := hops s;
     completed := match state s with Completed => true | _ => false end |}.

Definition error_of (s : TraceSession) : option Error :=
  match state s with
  | Aborted => Some ConnectionClosedError
  | _ => None
  end.

(** Modelled from the spec: the engine's entry point creates a session
    and drives it to completion.  The session it ends in, when started at
    [t0] against the registry [r0]. *)
Definition runSession (c : Conn) (id : string) (t0 : Z) (r0 : Registry) : Sys :=
  sweep (S (maxHops cfg)) (start cfg (initial id (peer c) (handle c) t0 r0)).

(** Modelled from the spec: RunTrace(interfaceName, connectionHandle,
    sessionID) → (TraceResult, error). *)
Definition RunTrace (interfaceName : string) (c : Conn) (id : string)
    (t0 : Z) (r0 : Registry) : TraceResult * option Error :=
  let y := runSession c id t0 r0 in
  (finalize (sess y), error_of (sess y)).

End Run.

Definition Error_string (e : Error) : string :=
  match e with
  | ConfigurationError => "configuration error"
  | ConnectionClosedError => "connection closed"
  | ProbeTimeoutError => "probe timeout"
  | MaxHopsExceededError => "max hops exceeded"
  | MalformedPacketError => "malformed packet"
  | TokenCollisionError => "token collision"
  end.

(** Modelled from the spec: the Logger collaborator accepts one structured
    record per finalized session, appended as one JSON object per line to
    an append-only log. *)
Definition emitRecord `{!JsonMarshal TraceResult} (log : string) (r : TraceResult)
  : IO unit :=
  match json_Marshal r with
  | Ok s => file_Write {| fname := log; fflag := Z.lor O_WRONLY O_APPEND |} (s +:+ newline)
  | Err _ => mret tt
  end.

(** Modelled from the spec: what the handler's call of [Run] does: the
    trace, the record for the logger, and the error if any. *)
Definition Run `{!TokenScheme} `{!JsonMarshal TraceResult} (cfg : Config) (net : Net)
    (log : string) (r0 : Registry) (iface : string) (c : Conn) (id : string)
  : IO (result unit) :=
  t0 ← time_Now;
  let y := runSession cfg net c id t0 r0 in
  _ ← modify (set_now (clock y));
  _ ← emitRecord log (finalize (sess y));
  mret (match error_of (sess y) with
        | Some e => Err (Error_string e)
        | None => Ok tt
        end).

End Engine.

(** ** The HTTP handlers of the measurement server *)
Module Handlers.
Import Go.

(** Built by [newZeroTrace(ifaceName, myConn, uuid)]. *)
Record ZeroTrace := {
  Iface : string;
  Conn : nat;
  UUID : string
}.

(** What the handlers use and the source files do not define: the helpers
    [checkHTTPParams] and [isValidUUID], the logger [l], the interface name
    and the engine behind [Run]; and the packages they call. *)
Class Deps := {
  checkHTTPParams : Request -> string -> IO bool;
  isValidUUID : string -> bool;
  l : Logger;
  ifaceName : string;
  zeroTrace_Run : ZeroTrace -> IO (result unit);
  websocket_Upgrade : Request -> result nat;
  deps_stamp :: LogStamp;
  deps_unmarshal :: JsonUnmarshal
}.

Section Handlers.
Context `{!Deps}.

Definition newZeroTrace (iface : string) (c : nat) (uuid : string) : ZeroTrace :=
  {| Iface := iface; Conn := c; UUID := uuid |}.

(** [isValidUUID(s)], leaving a mark in the trace. *)
Definition validUUID (u : string) : IO bool := fun w =>
  (Ret (isValidUUID u), emit (EvValidUUID u (isValidUUID u)) w).

(** The loop over the query parameters in [traceHandler],
    [for k, v := range r.URL.Query()], in the order [kvs] of this
    iteration.  The result is the uuid, or [None] when the handler has
    answered with an error and returns. *)
Fixpoint queryLoop (kvs : list (string * list string)) (uuid : string)
  : IO (option string) :=
  match kvs with
  | [] => mret (Some uuid)
  | (k, v) :: kvs' =>
      if String.eqb k "uuid" then
        match v with
        | [] => panic "index out of range [0] with length 0"
        | v0 :: _ =>
            valid ← validUUID v0;
            if (valid : bool) then queryLoop kvs' v0
            else
              _ ← http_Error "Invalid UUID" StatusInternalServerError;
              mret None
        end
      else
        _ ← http_Error "Invalid UUID" StatusInternalServerError;
        mret None
  end.

(** What [traceHandler] does with the upgraded connection [c] and the
    uuid it has settled on: the call of [newZeroTrace], the run, and the
    report of its error. *)
Definition tracing (c : nat) (uuid : string) : IO unit :=
  let myConn := c in
  let zeroTraceInstance := newZeroTrace ifaceName myConn uuid in
  _ ← modify (emit (EvNewZeroTrace ifaceName myConn uuid));
  ran ← zeroTrace_Run zeroTraceInstance;
  match ran with
  | Err err =>
      _ ← Println l ["ZeroTrace Run Error: "; err];
      http_Error err StatusInternalServerError
  | Ok _ => mret tt
  end.

(** traceHandler speaks WebSocket for extracting underlying connection to
    use for 0trace. *)
Definition traceHandler (r : Request) (kvs : list (string * list string)) : IO unit :=
  skip ← checkHTTPParams r "/trace";
  if (skip : bool) then mret tt
  else
    found ← queryLoop kvs "";
    match found with
    | None => mret tt
    | Some uuid =>
        match websocket_Upgrade r with
        | Err err =>
            _ ← Println l ["upgrade:"; err];
            http_Error err StatusInternalServerError
        | Ok c =>
            deferred (emit (EvWsClose c))
              (let myConn := c in
               let zeroTraceInstance := newZeroTrace ifaceName myConn uuid in
               _ ← modify (emit (EvNewZeroTrace ifaceName myConn uuid));
               ran ← zeroTrace_Run zeroTraceInstance;
               match ran with
               | Err err =>
                   _ ← Println l ["ZeroTrace Run Error: "; err];
                   http_Error err StatusInternalServerError
               | Ok _ => mret tt
               end)
        end
    end.

(** The read loop of [echoHandler]. *)
Fixpoint echoLoop (c : nat) (script : list WsRead) : IO unit :=
  match script with
  | [] => block
  | RdErr err :: _ =>
      _ ← modify (emit (EvWsReadErr c err));
      Println l ["read:"; err]
  | RdMsg mt message wr :: script' =>
      _ ← modify (emit (EvWsRead c mt message));
      match json_Unmarshal message with
      | Err err => Println l ["unmarshal:"; err]
      | Ok wsData =>
          _ ← (if iface_neq_string (index wsData "type") "ws-latency" then
                 match assert_string (index wsData "UUID") with
                 | Some wsUUID =>
                     valid ← validUUID wsUUID;
                     if (valid : bool) then Println l [string_of_list_byte message]
                     else mret tt
                 | None => mret tt
                 end
               else mret tt);
          _ ← modify (emit (EvWsWrite c mt message wr));
          match wr with
          | Err err => Println l ["write:"; err]
          | Ok _ => echoLoop c script'
          end
      end
  end.

(** echoHandler for the echo webserver that speaks WebSocket. *)
Definition echoHandler (r : Request) (script : list WsRead) : IO unit :=
  skip ← checkHTTPParams r "/echo";
  if (skip : bool) then mret tt
  else
    match websocket_Upgrade r with
    | Err err =>
        _ ← Println l ["upgrade:"; err];
        http_Error err StatusInternalServerError
    | Ok c => deferred (emit (EvWsClose c)) (echoLoop c script)
    end.

End Handlers.
End Handlers.

(** ** Instances for the examples

    Stand-ins for the packages and for the network, used to run the
    handlers on concrete requests.  The statistics follow
    [montanaflynn/stats]; the encoders print the fields in order, numbers
    in decimal with six digits after the point. *)
Module Example.
Import Go.

Definition dq : string := String (ascii_of_nat 34) EmptyString.

Definition quoted (s : string) : string := dq +:+ s +:+ dq.

(** Drops the newline characters of a text. *)
Fixpoint strip (s : string) : string :=
  match s with
  | EmptyString => EmptyString
  | String c s' =>
      if Ascii.eqb c (ascii_of_nat 10) then strip s' else String c (strip s')
  end.

Definition pad6 (z : Z) : string :=
  match pretty (1000000 + z) with
  | String _ digits => digits
  | EmptyString => EmptyString
  end.

Definition show_float (f : float) : result string :=
  match FloatOps.Prim2SF f with
  | SpecFloat.S754_zero _ => Ok "0"
  | SpecFloat.S754_finite sign m e =>
      let micro := if 0 <=? e then Z.pos m * 2 ^ e * 1000000
                   else Z.pos m * 1000000 / 2 ^ (- e) in
      Ok ((if sign then "-" else "") +:+ pretty (micro / 1000000) +:+ "."
          +:+ pad6 (micro mod 1000000))
  | _ => Err "json: unsupported value"
  end.

Fixpoint show_floats (l : list float) : result (list string) :=
  match l with
  | [] => Ok []
  | f :: l' =>
      match show_float f, show_floats l' with
      | Ok s, Ok ss => Ok (s :: ss)
      | Err e, _ => Err e
      | _, Err e => Err e
      end
  end.

Fixpoint commas (l : list string) : string :=
  match l with
  | [] => ""
  | [a] => a
  | a :: l' => a +:+ "," +:+ commas l'
  end.

Definition field (k v : string) : string := quoted k +:+ ":" +:+ v.

Definition object (fields : list string) : string := "{" +:+ commas fields +:+ "}".

Definition array (items : list string) : string := "[" +:+ commas items +:+ "]".

(** [montanaflynn/stats]. *)
Definition nan : float := PrimFloat.div 0%float 0%float.

Definition Min (input : list float) : float :=
  match input with
  | [] => nan
  | x :: rest => foldl (fun m y => if PrimFloat.ltb y m then y else m) x rest
  end.

Definition Max (input : list float) : float :=
  match input with
  | [] => nan
  | x :: rest => foldl (fun m y => if PrimFloat.ltb m y then y else m) x rest
  end.

Definition Sum (input : list float) : float :=
  foldl PrimFloat.add 0%float input.

Definition float_of_nat (n : nat) : float := of_uint63 (Uint63.of_Z (Z.of_nat n)).

Definition Mean (input : list float) : float :=
  match input with
  | [] => nan
  | _ => PrimFloat.div (Sum input) (float_of_nat (length input))
  end.

Definition StandardDeviation (input : list float) : float :=
  match input with
  | [] => nan
  | _ =>
      let m := Mean input in
      let variance :=
        foldl (fun v n => PrimFloat.add v (PrimFloat.mul (PrimFloat.sub n m)
                                                         (PrimFloat.sub n m)))
              0%float input in
      PrimFloat.sqrt (PrimFloat.div variance (float_of_nat (length input)))
  end.

(** [net.SplitHostPort], for an address without brackets: the part before
    the last colon. *)
Fixpoint host_of (addr : string) : string :=
  match addr with
  | EmptyString => EmptyString
  | String c rest =>
      if strings_Contains rest ":" then String c (host_of rest)
      else if Ascii.eqb c ":" then EmptyString else String c (host_of rest)
  end.

Definition marshal_RtItem (i : TestServer.RtItem.t) : result string :=
  match show_floats [TestServer.RtItem.PktLoss i; TestServer.RtItem.MinRtt i;
                     TestServer.RtItem.AvgRtt i; TestServer.RtItem.MaxRtt i;
                     TestServer.RtItem.StdDevRtt i] with
  | Ok [loss; mn; av; mx; sd] =>
      Ok (object [field "IP" (quoted (TestServer.RtItem.IP i));
                  field "PktSent" (pretty (TestServer.RtItem.PktSent i));
                  field "PktRecv" (pretty (TestServer.RtItem.PktRecv i));
                  field "PktLoss" loss; field "MinRtt" mn; field "AvgRtt" av;
                  field "MaxRtt" mx; field "StdDevRtt" sd])
  | Ok _ => Err "json: unsupported value"
  | Err e => Err e
  end.

Definition marshal_tcpResult (t : TestServer.tcpResult.t) : result string :=
  match show_floats (TestServer.tcpResult.TimesInms t),
        show_floats [TestServer.tcpResult.MinRtt t; TestServer.tcpResult.AvgRtt t;
                     TestServer.tcpResult.MaxRtt t; TestServer.tcpResult.StdDevRtt t] with
  | Ok times, Ok [mn; av; mx; sd] =>
      Ok (object [field "Destination" (quoted (TestServer.tcpResult.Destination t));
                  field "TimesInms" (array times);
                  field "MinRtt" mn; field "AvgRtt" av;
                  field "MaxRtt" mx; field "StdDevRtt" sd])
  | Err e, _ => Err e
  | _, Err e => Err e
  | _, _ => Err "json: unsupported value"
  end.

Fixpoint marshal_all {A} (f : A -> result string) (l : list A) : result (list string) :=
  match l with
  | [] => Ok []
  | a :: l' =>
      match f a, marshal_all f l' with
      | Ok s, Ok ss => Ok (s :: ss)
      | Err e, _ => Err e
      | _, Err e => Err e
      end
  end.

Definition stripped (r : result string) : result string :=
  match r with
  | Ok s => Ok (strip s)
  | Err e => Err e
  end.

#[export] Instance marshal_probe : JsonMarshal TestServer.tcpProbeResult.t := fun p =>
  stripped
    match show_float (TestServer.tcpProbeResult.Timeinms p) with
    | Ok t =>
        Ok (object [field "Destination" (quoted (TestServer.tcpProbeResult.Destination p));
                    field "SequenceNumber" (pretty (TestServer.tcpProbeResult.SequenceNumber p));
                    field "Timeinms" t])
    | Err e => Err e
    end.

#[export] Instance marshal_results : JsonMarshal TestServer.Results.t := fun r =>
  stripped
    match marshal_all marshal_RtItem (TestServer.Results.IcmpPing r),
          marshal_all marshal_tcpResult (TestServer.Results.TcpPing r) with
    | Ok icmp, Ok tcp =>
        Ok (object [field "UUID" (quoted (TestServer.Results.UUID r));
                    field "IPaddr" (quoted (TestServer.Results.IPaddr r));
                    field "IcmpPing" (array icmp); field "TcpPing" (array tcp)])
    | Err e, _ => Err e
    | _, Err e => Err e
    end.

(** The decoder knows the messages of the examples; any other text in
    braces decodes to an object without the keys the handlers ask for. *)
Definition latency_msg : string := object [field "type" (quoted "ws-latency")].
Definition final_uuid : string := "123e4567-e89b-42d3-a456-426614174000".
Definition final_msg : string := object [field "UUID" (quoted final_uuid)].

#[export] Instance unmarshal : JsonUnmarshal := fun data =>
  let text := string_of_list_byte data in
  if String.eqb text latency_msg then Ok {[ "type" := JString "ws-latency" ]}
  else if String.eqb text final_msg then Ok {[ "UUID" := JString final_uuid ]}
  else if String.prefix "{" text then Ok ∅
  else Err "invalid character looking for beginning of value".

#[export] Instance stamp : LogStamp := fun _ _ => "2021/06/07 15:04:05 ".

(** The network of the examples: a dial is refused when its number is a
    multiple of three, times out when the remainder is one, and connects
    otherwise. *)
Definition dial (k : nat) (dst : string) (timeout : Z) : TestServer.Dialed :=
  match (k mod 3)%nat with
  | O => {| TestServer.took := 12 * Millisecond;
            TestServer.conn := Err ("dial tcp " +:+ dst +:+ ": connect: connection refused") |}
  | S O => {| TestServer.took := timeout;
              TestServer.conn := Err ("dial tcp " +:+ dst +:+ ": i/o timeout") |}
  | _ => {| TestServer.took := 12 * Millisecond; TestServer.conn := Ok k |}
  end.

#[export] Instance env : TestServer.Env := {|
  TestServer.stats_Min := Min;
  TestServer.stats_Mean := Mean;
  TestServer.stats_Max := Max;
  TestServer.stats_StandardDeviation := StandardDeviation;
  TestServer.net_SplitHostPort := host_of;
  TestServer.rand_Uint32 := fun s k => (s + Z.of_nat k) mod 2 ^ 32;
  TestServer.uuid_NewString := fun _ => final_uuid;
  TestServer.template_Execute := fun r => "<html>" +:+ TestServer.Results.UUID r +:+ "</html>";
  TestServer.ping_NewPinger := fun _ => Ok tt;
  TestServer.ping_Run := fun _ count _ =>
    (40 * Millisecond,
     Ok {| TestServer.ping.PacketsSent := count; TestServer.ping.PacketsRecv := count;
           TestServer.ping.PacketLoss := 0%float;
           TestServer.ping.MinRtt := 7 * Millisecond;
           TestServer.ping.AvgRtt := 8 * Millisecond;
           TestServer.ping.MaxRtt := 9 * Millisecond;
           TestServer.ping.StdDevRtt := Millisecond |});
  TestServer.net_DialTimeout := dial;
  TestServer.websocket_Upgrade := fun _ => Ok 1%nat;
  TestServer.env_stamp := stamp;
  TestServer.env_unmarshal := unmarshal;
  TestServer.env_marshal_probe := marshal_probe;
  TestServer.env_marshal_results := marshal_results
|}.

(** The loggers as [main] builds them with the default paths. *)
Definition infoLogger : Logger :=
  log_New {| fname := "logFile.jsonl"; fflag := TestServer.logFlags |} "" 0.

Definition errLogger : Logger :=
  log_New {| fname := "errlog.txt"; fflag := TestServer.logFlags |} ""
          (Z.lor Ldate Ltime).

(** The engine of the examples. *)
#[export] Instance tokens : Engine.TokenScheme := fun c t attempt =>
  Z.of_nat c * 2 ^ 32 + Z.of_nat t * 2 ^ 16 + Z.of_nat attempt.

(** Another derivation: negative tokens. *)
Definition tokens' : Engine.TokenScheme := fun c t attempt =>
  - (Z.of_nat c * 2 ^ 20 + Z.of_nat t * 2 ^ 10 + Z.of_nat attempt) - 1.

Definition show_status (s : Engine.Status) : string :=
  match s with
  | Engine.answered => "answered"
  | Engine.timeout => "timeout"
  | Engine.unreachable => "unreachable"
  end.

Definition marshal_hop (h : Engine.HopResult) : result string :=
  Ok (object [field "ttl" (pretty (Z.of_nat (Engine.ttl h)));
              field "responderIP" (match Engine.responderIP h with
                                   | Some ip => quoted ip
                                   | None => "null"
                                   end);
              field "rtt" (match Engine.rtt h with
                           | Some d => pretty d
                           | None => "null"
                           end);
              field "status" (quoted (show_status (Engine.status h)))]).

#[export] Instance marshal_trace : JsonMarshal Engine.TraceResult := fun r =>
  stripped
    match marshal_all marshal_hop (Engine.res_hops r) with
    | Ok hs =>
        Ok (object [field "sessionID" (quoted (Engine.res_sessionID r));
                    field "targetIP" (quoted (Engine.res_targetIP r));
                    field "hops" (array hs);
                    field "completed" (if Engine.completed r then "true" else "false")])
    | Err e => Err e
    end.

Definition target : Engine.IP := "198.51.100.7".

(** The target is five hops away: TTLs 1 to 4 are answered by routers
    after 10, 25, 40 and 60 ms, TTL 5 by the target. *)
Definition five_hops : Engine.Net := fun t =>
  match t with
  | 1%nat => Engine.Replied Engine.ICMPTimeExceeded "10.0.0.1" (10 * Millisecond)
  | 2%nat => Engine.Replied Engine.ICMPTimeExceeded "10.0.1.1" (25 * Millisecond)
  | 3%nat => Engine.Replied Engine.ICMPTimeExceeded "10.0.2.1" (40 * Millisecond)
  | 4%nat => Engine.Replied Engine.ICMPTimeExceeded "10.0.3.1" (60 * Millisecond)
  | 5%nat => Engine.Replied Engine.ICMPTimeExceeded target (75 * Millisecond)
  | _ => Engine.Silent
  end.

(** A session whose first probe is answered by the target: one hop, then
    [Completed]. *)
Definition one_hop : list Engine.Action :=
  [Engine.AStart; Engine.ASend 1; Engine.ATick 5;
   Engine.AListen {| Engine.icmpType := Engine.ICMPTimeExceeded; Engine.src := target;
                     Engine.embedded := Some 1 |};
   Engine.AAdvance].

(** A session with floor 2 and ceiling 2 whose only probe times out. *)
Definition floor2 : Engine.Config :=
  {| Engine.floor := 2; Engine.maxHops := 2; Engine.hopTimeout := 1 |}.

Definition one_timeout : list Engine.Action :=
  [Engine.AStart; Engine.ASend 0; Engine.ATick 1; Engine.AExpire; Engine.AAdvance].

(** The connection closes right after the target has answered. *)
Definition closed_after_answer : list Engine.Action :=
  [Engine.AStart; Engine.ASend 1; Engine.ATick 5;
   Engine.AListen {| Engine.icmpType := Engine.ICMPTimeExceeded; Engine.src := target;
                     Engine.embedded := Some 1 |};
   Engine.AClose].

(** Nothing ever answers. *)
Definition silent : Engine.Net := fun _ => Engine.Silent.

(** The connection is found closed when TTL 3 is to be probed. *)
Definition closes_at_3 : Engine.Net := fun t =>
  match t with
  | 3%nat => Engine.ClosedAtSend
  | _ => five_hops t
  end.

(** The connection is closed from the start. *)
Definition closed : Engine.Net := fun _ => Engine.ClosedAtSend.

(** [isValidUUID] for the canonical form: 36 characters, hyphens at 8, 13,
    18 and 23, hexadecimal digits elsewhere. *)
Definition is_hex (c : ascii) : bool :=
  let n := nat_of_ascii c in
  ((48 <=? n) && (n <=? 57) || (65 <=? n) && (n <=? 70) || (97 <=? n) && (n <=? 102))%nat.

Fixpoint canonical_from (i : nat) (s : string) : bool :=
  match s with
  | EmptyString => Nat.eqb i 36
  | String c s' =>
      (if (Nat.eqb i 8 || Nat.eqb i 13 || Nat.eqb i 18 || Nat.eqb i 23)%bool
       then Ascii.eqb c "-" else is_hex c)
      && canonical_from (S i) s'
  end.

Definition canonical_uuid (s : string) : bool := canonical_from 0 s.

(** [checkHTTPParams]: the path and method checks the test server makes
    in line. *)
Definition check_params (r : Request) (pathstring : string) : IO bool :=
  if negb (String.eqb (Path r) pathstring) then
    _ ← http_NotFound; mret true
  else if negb (String.eqb (Method r) "GET") then
    _ ← w_WriteHeader StatusNotImplemented;
    _ ← w_Write (http_StatusText StatusNotImplemented);
    mret true
  else mret false.

Definition serverLog : Logger :=
  log_New {| fname := "latsrv.log"; fflag := TestServer.logFlags |} "" 0.

Definition deps_on (net : Engine.Net) : Handlers.Deps := {|
  Handlers.checkHTTPParams := check_params;
  Handlers.isValidUUID := canonical_uuid;
  Handlers.l := serverLog;
  Handlers.ifaceName := "eth0";
  Handlers.zeroTrace_Run := fun z =>
    Engine.Run Engine.defaultConfig net "latsrv.log" [] (Handlers.Iface z)
      {| Engine.handle := Handlers.Conn z; Engine.peer := target |} (Handlers.UUID z);
  Handlers.websocket_Upgrade := fun _ => Ok 1%nat;
  Handlers.deps_stamp := stamp;
  Handlers.deps_unmarshal := unmarshal
|}.

Definition get_trace (q : gmap string (list string)) : Request :=
  {| Path := "/trace"; Method := "GET"; RemoteAddr := "198.51.100.7:50314"; Query := q |}.

Definition get_echo : Request :=
  {| Path := "/echo"; Method := "GET"; RemoteAddr := "198.51.100.7:50314"; Query := ∅ |}.

Definition world0 : World :=
  {| now := 1623078245000000000; files := ∅; offsets := ∅; denied := ∅;
     resp := {| status := None; body := "" |}; trace := []; seed := 1;
     draws := 0; dials := 0; uuids := 0 |}.

Definition get_ping : Request :=
  {| Path := "/ping"; Method := "GET"; RemoteAddr := "198.51.100.7:50314"; Query := ∅ |}.

End Example.

(* ===================================================================== *)
(** * Part II: properties                                                  *)
(* ===================================================================== *)

(** ** The runtime model *)
Module GoFacts.
Import Go.

Lemma Println_ret `{!LogStamp} l args w :
  Println l args w = (Ret tt, logged l args w).
Proof.
  unfold logged, Println, mbind, IO_bind, io_bind, time_Now, file_Write.
  simpl. by destruct (has_flag _ _).
Qed.

Lemma logged_frame `{!LogStamp} l args w :
  let w' := logged l args w in
  now w' = now w /\ trace w' = trace w /\ dials w' = dials w /\
  seed w' = seed w /\ draws w' = draws w /\ uuids w' = uuids w /\
  resp w' = resp w /\ denied w' = denied w.
Proof.
  unfold logged, Println, mbind, IO_bind, io_bind, time_Now, file_Write.
  simpl. by destruct (has_flag _ _).
Qed.

(** With [O_APPEND] a line goes after what the file holds, whatever that
    is; the other files are untouched. *)
Lemma logged_append `{!LogStamp} l args w :
  has_flag (fflag (out l)) O_APPEND = true ->
  files (logged l args w) =
    <[fname (out l) := default "" (files w !! fname (out l))
                       +:+ (log_header l (now w) +:+ fmt_Sprintln args)]> (files w).
Proof.
  intros Happ.
  unfold logged, Println, mbind, IO_bind, io_bind, time_Now, file_Write.
  simpl. by rewrite Happ.
Qed.

Lemma logged_files_ext `{!LogStamp} l args w1 w2 :
  now w1 = now w2 -> files w1 = files w2 -> offsets w1 = offsets w2 ->
  files (logged l args w1) = files (logged l args w2) /\
  offsets (logged l args w1) = offsets (logged l args w2).
Proof.
  intros Hn Hf Ho.
  unfold logged, Println, mbind, IO_bind, io_bind, time_Now, file_Write.
  simpl. rewrite Hn, Hf, Ho. by destruct (has_flag _ _).
Qed.

Lemma append_assoc (a b c : string) : (a +:+ b) +:+ c = a +:+ (b +:+ c).
Proof.
  induction a as [|x a IH]; [done|].
  change (String x ((a +:+ b) +:+ c) = String x (a +:+ (b +:+ c))).
  by f_equal.
Qed.

Lemma append_nil_r (a : string) : a +:+ "" = a.
Proof.
  induction a as [|x a IH]; [done|].
  change (String x (a +:+ "") = String x a). by f_equal.
Qed.

Lemma grows_refl w : grows w w.
Proof. intros path old H. exists "". by rewrite append_nil_r. Qed.

Lemma grows_trans w1 w2 w3 : grows w1 w2 -> grows w2 w3 -> grows w1 w3.
Proof.
  intros H12 H23 path old H.
  destruct (H12 _ _ H) as [a Ha]. destruct (H23 _ _ Ha) as [b Hb].
  exists (a +:+ b). by rewrite <- append_assoc.
Qed.

Lemma grows_same_files w w' : files w' = files w -> grows w w'.
Proof. intros E path old H. exists "". by rewrite E, append_nil_r. Qed.

Lemma grows_ext w w1 w2 : files w2 = files w1 -> grows w w1 -> grows w w2.
Proof. intros E Hg path old Hold. rewrite E. by apply Hg. Qed.

Lemma logged_grows `{!LogStamp} l args w :
  has_flag (fflag (out l)) O_APPEND = true -> grows w (logged l args w).
Proof.
  intros Happ path old Hold. rewrite logged_append by done.
  destruct (decide (path = fname (out l))) as [->|Hne].
  - rewrite lookup_insert_eq, Hold. simpl. eauto.
  - rewrite lookup_insert_ne by done. exists "". by rewrite append_nil_r.
Qed.

Lemma logged_other `{!LogStamp} l args w path :
  path <> fname (out l) -> files (logged l args w) !! path = files w !! path.
Proof.
  intros Hne.
  unfold logged, Println, mbind, IO_bind, io_bind, time_Now, file_Write.
  simpl. destruct (has_flag _ _); simpl; by rewrite lookup_insert_ne.
Qed.

Lemma echoes_nil parses : echoes parses [].
Proof. intros [|e pre] c mt p post Heq; discriminate. Qed.

Lemma echoes_no_read parses evs :
  Forall (fun e => match e with EvWsRead _ _ _ => False | _ => True end) evs ->
  echoes parses evs.
Proof.
  intros Hall pre c mt p post -> _.
  apply Forall_app in Hall as [_ Hall]. by inversion Hall.
Qed.

(** A read that lies behind events that are not reads lies in the rest. *)
Lemma split_after_quiet mid e rest pre c mt p post :
  Forall (fun e => is_ws_read e = false) mid -> is_ws_read e = false ->
  mid ++ e :: rest = pre ++ EvWsRead c mt p :: post ->
  exists pre', rest = pre' ++ EvWsRead c mt p :: post.
Proof.
  revert pre. induction mid as [|m mid IH]; intros pre Hmid He Heq.
  - destruct pre as [|x pre]; simplify_eq/=; eauto.
  - inversion Hmid as [|? ? Hm Hmid']; subst.
    destruct pre as [|x pre]; simplify_eq/=; eauto.
Qed.

(** One round of an echo loop, then a run that echoes. *)
Lemma echoes_round (parses : list byte -> Prop) c mt p mid wr rest :
  Forall (fun e => is_ws_read e = false) mid ->
  echoes parses rest ->
  echoes parses (EvWsRead c mt p :: mid ++ EvWsWrite c mt p wr :: rest).
Proof.
  intros Hmid Hrest [|x pre] c' mt' p' post Heq Hp;
    cbn [app] in Heq; inversion Heq as [[Hx Heq']]; subst.
  - by exists mid, wr, rest.
  - destruct (split_after_quiet mid (EvWsWrite c mt p wr) rest pre c' mt' p' post
                Hmid eq_refl Heq') as [pre' ->].
    by apply (Hrest pre').
Qed.

(** A read of a payload that does not parse, after which nothing is read. *)
Lemma echoes_unparsed (parses : list byte -> Prop) c mt p rest :
  ~ parses p -> Forall (fun e => is_ws_read e = false) rest ->
  echoes parses (EvWsRead c mt p :: rest).
Proof.
  intros Hnp Hrest [|x pre] c' mt' p' post Heq Hp;
    cbn [app] in Heq; inversion Heq as [[Hx Heq']]; subst.
  - done.
  - apply Forall_app in Hrest as [_ Hrest]. by inversion Hrest.
Qed.

Lemma echoes_snoc parses evs e :
  is_ws_read e = false -> echoes parses evs -> echoes parses (evs ++ [e]).
Proof.
  intros He Hevs pre c mt p post Heq Hp.
  destruct (decide (post = [])) as [->|Hne].
  - apply (f_equal last) in Heq. rewrite !last_snoc in Heq.
    injection Heq as ->. discriminate.
  - destruct (exists_last Hne) as (post0 & x & ->).
    change (pre ++ EvWsRead c mt p :: post0 ++ [x])
      with (pre ++ (EvWsRead c mt p :: post0) ++ [x]) in Heq.
    rewrite app_assoc in Heq. apply app_inj_tail in Heq as [-> <-].
    destruct (Hevs pre c mt p post0 eq_refl Hp) as (mid & wr & post' & -> & Hmid).
    exists mid, wr, (post' ++ [e]). split; [|done].
    by rewrite <- app_assoc.
Qed.

(** A bind whose first action returns continues with the value. *)
Lemma bind_ret_eq {A B} (m : IO A) (k : A -> IO B) w a w' :
  m w = (Ret a, w') -> (m ≫= k) w = k a w'.
Proof. unfold mbind, IO_bind, io_bind. by intros ->. Qed.

Lemma http_Error_ret msg code w :
  exists w', http_Error msg code w = (Ret tt, w') /\
    trace w' = trace w /\ files w' = files w /\
    status (resp w') = Some (default code (status (resp w))) /\
    body (resp w') = body (resp w) +:+ msg +:+ newline.
Proof.
  unfold http_Error, mbind, IO_bind, io_bind, w_WriteHeader, w_Write, modify.
  eexists. split; [reflexivity|]. simpl.
  destruct (status (resp w)) eqn:E; simpl; rewrite ?E; auto.
Qed.

End GoFacts.

(** ** The test server *)
Module TestServerFacts.
Import Go GoFacts TestServer.

Section Server.
Context `{!Env} (InfoLogger ErrLogger : Logger).

Ltac io := unfold mbind, mret, IO_bind, IO_ret, io_bind, io_ret, modify, time_Now in *.

Lemma dialed_frame dst timeout w :
  let d := net_DialTimeout (dials w) dst timeout in
  let w' := dialed dst timeout w in
  now w' = now w + took d /\ dials w' = S (dials w) /\
  trace w' = trace w ++ [EvDial dst timeout (conn d)] /\
  files w' = files w /\ offsets w' = offsets w /\ seed w' = seed w /\
  draws w' = draws w /\ uuids w' = uuids w /\ resp w' = resp w.
Proof. by cbv zeta; unfold dialed, DialTimeout; simpl. Qed.

(** [pingTcp], case by case on what the dial returned. *)
Lemma pingTcp_eq dst seq timeout w :
  let d := net_DialTimeout (dials w) dst timeout in
  let w1 := dialed dst timeout w in
  let t := fmtTimeMs (time_Sub (now w + took d) (now w)) in
  pingTcp ErrLogger dst seq timeout w =
    match conn d with
    | Ok c => (Ret t, emit (EvConnClose c) (logged ErrLogger (probe_line dst seq t) w1))
    | Err e =>
        if strings_Contains e "connection refused"
        then (Ret t, logged ErrLogger (probe_line dst seq t) w1)
        else (Ret 0%float, logged ErrLogger [dst; " connection failed with:"; e] w1)
    end.
Proof.
  cbv zeta. unfold pingTcp, probe_line, dialed, DialTimeout, conn_Close. io.
  cbn [fst snd now emit set_now set_dials].
  destruct (conn (net_DialTimeout (dials w) dst timeout)) as [c|e] eqn:Hc.
  - destruct (json_Marshal _); rewrite Println_ret; reflexivity.
  - destruct (strings_Contains e "connection refused").
    + destruct (json_Marshal _); rewrite Println_ret; reflexivity.
    + rewrite Println_ret. reflexivity.
Qed.

(** C9: a dial error whose message contains "connection refused" is
    treated as a successful measurement: [pingTcp] returns the elapsed dial
    time and logs the same [tcpProbeResult] record as when the dial
    succeeds in the same time; only the successful dial's connection is
    closed. *)
Theorem pingTcp_refused_as_measured dst seq timeout w w' d c msg :
  net_DialTimeout (dials w) dst timeout = {| took := d; conn := Err msg |} ->
  strings_Contains msg "connection refused" = true ->
  net_DialTimeout (dials w') dst timeout = {| took := d; conn := Ok c |} ->
  now w' = now w -> files w' = files w -> offsets w' = offsets w ->
  let t := fmtTimeMs (time_Sub (now w + d) (now w)) in
  let refused := pingTcp ErrLogger dst seq timeout w in
  let connected := pingTcp ErrLogger dst seq timeout w' in
  refused.1 = Ret t /\ connected.1 = Ret t /\
  files refused.2 =
    files (logged ErrLogger (probe_line dst seq t) (dialed dst timeout w)) /\
  files refused.2 = files connected.2 /\
  trace refused.2 = trace w ++ [EvDial dst timeout (Err msg)] /\
  trace connected.2 = trace w' ++ [EvDial dst timeout (Ok c); EvConnClose c].
Proof.
  intros Hr Hmsg Hc Hn Hf Ho. cbv zeta.
  rewrite !pingTcp_eq, Hr, Hc. cbn [took conn]. rewrite Hmsg, Hn.
  cbn [fst snd].
  destruct (dialed_frame dst timeout w) as (Hn1 & _ & Ht1 & Hf1 & Ho1 & _).
  destruct (dialed_frame dst timeout w') as (Hn2 & _ & Ht2 & Hf2 & Ho2 & _).
  rewrite Hr in Hn1, Ht1. rewrite Hc in Hn2, Ht2. cbn [took conn] in *.
  repeat split.
  - cbn [files emit].
    apply logged_files_ext; congruence.
  - destruct (logged_frame ErrLogger (probe_line dst seq
      (fmtTimeMs (time_Sub (now w + d) (now w)))) (dialed dst timeout w))
      as (_ & -> & _). exact Ht1.
  - cbn [trace emit].
    destruct (logged_frame ErrLogger (probe_line dst seq
      (fmtTimeMs (time_Sub (now w + d) (now w)))) (dialed dst timeout w'))
      as (_ & -> & _). rewrite Ht2, <- app_assoc. reflexivity.
Qed.

(** What one probe does to the world, whatever the dial returned. *)
Lemma pingTcp_ret dst seq timeout w :
  exists t w',
    pingTcp ErrLogger dst seq timeout w = (Ret t, w') /\
    dials w' = S (dials w) /\
    (forall path, path <> fname (out ErrLogger) -> files w' !! path = files w !! path) /\
    (has_flag (fflag (out ErrLogger)) O_APPEND = true -> grows w w') /\
    (forall msg, conn (net_DialTimeout (dials w) dst timeout) = Err msg ->
       strings_Contains msg "connection refused" = false -> t = 0%float).
Proof.
  rewrite pingTcp_eq.
  destruct (dialed_frame dst timeout w) as (_ & Hd & _ & Hf & _).
  assert (Hl : forall args,
    let w' := logged ErrLogger args (dialed dst timeout w) in
    dials w' = S (dials w) /\
    (forall path, path <> fname (out ErrLogger) -> files w' !! path = files w !! path) /\
    (has_flag (fflag (out ErrLogger)) O_APPEND = true -> grows w w')).
  { intros args w'. subst w'. split; [|split].
    - destruct (logged_frame ErrLogger args (dialed dst timeout w))
        as (_ & _ & -> & _). exact Hd.
    - intros path Hne. rewrite logged_other by done. by rewrite Hf.
    - intros Happ. eapply grows_trans; [by apply grows_same_files|].
      by apply logged_grows. }
  destruct (conn (net_DialTimeout (dials w) dst timeout)) as [c|e] eqn:Hc.
  - eexists _, _. split; [reflexivity|].
    destruct (Hl (probe_line dst seq (fmtTimeMs (time_Sub
      (now w + took (net_DialTimeout (dials w) dst timeout)) (now w)))))
      as (H1 & H2 & H3).
    cbn [dials files emit]. repeat split; try done.
  - destruct (strings_Contains e "connection refused") eqn:He.
    + eexists _, _. split; [reflexivity|].
      destruct (Hl (probe_line dst seq (fmtTimeMs (time_Sub
        (now w + took (net_DialTimeout (dials w) dst timeout)) (now w)))))
        as (H1 & H2 & H3).
      repeat split; try done. intros msg [= <-]. congruence.
    + eexists _, _. split; [reflexivity|].
      destruct (Hl [dst; " connection failed with:"; e]) as (H1 & H2 & H3).
      repeat split; done.
Qed.

(** The inner loop: [n] probes, one dial each; the sample grows by their
    values, in order. *)
Lemma probeLoop_spec n : forall dst seqNumber next acc w,
  exists new w',
    probeLoop ErrLogger n dst seqNumber next acc w = (Ret (acc ++ new), w') /\
    length new = n /\
    dials w' = (dials w + n)%nat /\
    (forall path, path <> fname (out ErrLogger) -> files w' !! path = files w !! path) /\
    (has_flag (fflag (out ErrLogger)) O_APPEND = true -> grows w w') /\
    (forall x msg, (x < n)%nat ->
       conn (net_DialTimeout (dials w + x) dst TCPTimeout) = Err msg ->
       strings_Contains msg "connection refused" = false ->
       new !! x = Some 0%float).
Proof.
  induction n as [|n IH]; intros dst seqNumber next acc w.
  - exists [], w. simpl. rewrite app_nil_r.
    split; [reflexivity|]. split; [reflexivity|]. split; [lia|].
    split; [done|]. split; [intros _; apply grows_refl|]. intros; lia.
  - cbn [probeLoop]. io. unfold ticker_recv at 1.
    set (w0 := set_now (Z.max (now w) next) w).
    destruct (pingTcp_ret dst (uint64 (seqNumber + 1)) TCPTimeout w0)
      as (t & w1 & -> & Hd1 & Hf1 & Hg1 & Hz1).
    destruct (IH dst (uint64 (seqNumber + 1)) (Z.max (now w) next + TCPInterval)
                 (acc ++ [t]) w1) as (new & w' & -> & Hlen & Hd & Hf & Hg & Hz).
    exists (t :: new), w'. rewrite <- app_assoc. split; [reflexivity|].
    split; [simpl; lia|]. split; [rewrite Hd, Hd1; simpl; lia|].
    split; [|split].
    + intros path Hne. rewrite Hf, Hf1 by done. reflexivity.
    + intros Happ. eapply grows_trans; [|by apply Hg].
      eapply grows_trans; [|by apply Hg1]. by apply grows_same_files.
    + intros [|x] msg Hx Hc Hm.
      * simpl. f_equal. apply (Hz1 msg); [|done].
        replace (dials w0) with (dials w + 0)%nat by (simpl; lia). done.
      * simpl. apply (Hz x msg); [lia| |done].
        replace (dials w1 + x)%nat with (dials w + S x)%nat; [done|].
        rewrite Hd1. simpl. lia.
Qed.

(** The outer loop: one record per port, five dials each. *)
Lemma portLoop_spec ports : forall clientIP acc w,
  exists new w',
    portLoop ErrLogger ports clientIP acc w = (Ret (acc ++ new), w') /\
    length new = length ports /\
    dials w' = (dials w + Z.to_nat TCPCounter * length ports)%nat /\
    (forall path, path <> fname (out ErrLogger) -> files w' !! path = files w !! path) /\
    (has_flag (fflag (out ErrLogger)) O_APPEND = true -> grows w w') /\
    (forall i port, ports !! i = Some port ->
       exists rec, new !! i = Some rec /\
         port_record clientIP port (dials w + Z.to_nat TCPCounter * i) rec).
Proof.
  induction ports as [|port ports IH]; intros clientIP acc w.
  - exists [], w. simpl. rewrite app_nil_r.
    split; [reflexivity|]. split; [reflexivity|]. split; [lia|].
    split; [done|]. split; [intros _; apply grows_refl|]. by intros i port.
  - cbn [portLoop]. io. unfold rand_draw at 1.
    set (w0 := set_rand (seed w) (S (draws w)) w).
    set (dst := clientIP +:+ ":" +:+ pretty port).
    destruct (probeLoop_spec (Z.to_nat TCPCounter) dst
                (uint64 (rand_Uint32 (seed w) (draws w)))
                (now w0 + TCPInterval) [] w0)
      as (sample & w1 & Hrun & Hlen & Hd1 & Hf1 & Hg1 & Hz1).
    cbn [fst snd]. rewrite Hrun. cbn [app].
    unfold getStats at 1.
    set (rec := {| tcpResult.Destination := dst; tcpResult.TimesInms := sample;
                   tcpResult.MinRtt := stats_Min sample;
                   tcpResult.AvgRtt := stats_Mean sample;
                   tcpResult.MaxRtt := stats_Max sample;
                   tcpResult.StdDevRtt := stats_StandardDeviation sample |}).
    destruct (IH clientIP (acc ++ [rec]) w1)
      as (new & w' & -> & Hlen' & Hd & Hf & Hg & Hrec).
    exists (rec :: new), w'. rewrite <- app_assoc. split; [reflexivity|].
    split; [simpl; lia|].
    assert (Hd0 : dials w0 = dials w) by reflexivity.
    assert (H5 : Z.to_nat TCPCounter = 5%nat) by reflexivity.
    split; [rewrite Hd, Hd1, Hd0, H5; simpl; lia|]. split; [|split].
    + intros path Hne. rewrite Hf, Hf1 by done. reflexivity.
    + intros Happ. eapply grows_trans; [|by apply Hg].
      eapply grows_trans; [|by apply Hg1]. by apply grows_same_files.
    + intros [|i] port' Hi.
      * injection Hi as <-. exists rec. split; [reflexivity|].
        split; [reflexivity|]. split; [exact Hlen|]. split; [reflexivity|].
        intros x msg Hx Hc Hm. apply (Hz1 x msg); [done| |done].
        replace (dials w0 + x)%nat with (dials w + Z.to_nat TCPCounter * 0 + x)%nat
          by (rewrite Hd0, H5; lia). exact Hc.
      * destruct (Hrec i port' Hi) as (rec' & Hi' & Hp).
        exists rec'. split; [exact Hi'|].
        replace (dials w + Z.to_nat TCPCounter * S i)%nat
          with (dials w1 + Z.to_nat TCPCounter * i)%nat; [exact Hp|].
        rewrite Hd1, Hd0, H5. lia.
Qed.

(** [pingHandler] on a GET of [/ping] whose ICMP run succeeds: it ends in
    [respond] on a record with one entry per tested port. *)
Lemma pingHandler_eq r w u stat :
  Path r = "/ping" -> Method r = "GET" ->
  let clientIP := net_SplitHostPort (RemoteAddr r) in
  ping_NewPinger clientIP = Ok u ->
  (ping_Run clientIP ICMPCount ICMPTimeout).2 = Ok stat ->
  exists results w2,
    pingHandler InfoLogger ErrLogger r w = respond InfoLogger results w2 /\
    Results.IPaddr results = clientIP /\
    (forall path, path <> fname (out ErrLogger) -> files w2 !! path = files w !! path) /\
    (has_flag (fflag (out ErrLogger)) O_APPEND = true -> grows w w2) /\
    (forall i port, PortsToTest !! i = Some port ->
       exists rec, Results.TcpPing results !! i = Some rec /\
         port_record clientIP port (dials w + Z.to_nat TCPCounter * i) rec).
Proof.
  intros Hp Hm clientIP Hnew Hrun. unfold pingHandler.
  rewrite Hp, Hm. cbn [String.eqb Ascii.eqb Bool.eqb negb]. simpl negb. cbv iota.
  fold clientIP.
  erewrite bind_ret_eq by reflexivity. rewrite Hnew.
  destruct (ping_Run clientIP ICMPCount ICMPTimeout) as [d ran] eqn:Hpr.
  cbn [snd] in Hrun. subst ran.
  erewrite bind_ret_eq by (unfold pinger_Run; rewrite Hpr; reflexivity).
  cbv beta iota.
  erewrite bind_ret_eq by reflexivity.
  match goal with
  | |- context [mbind _ (portLoop _ _ _ _) ?w0] =>
      destruct (portLoop_spec PortsToTest clientIP [] w0)
        as (arr & w2 & Hloop & _ & _ & Hf & Hg & Hrec)
  end.
  erewrite bind_ret_eq by exact Hloop. cbn [app].
  eexists _, w2. split; [reflexivity|]. split; [reflexivity|].
  split; [exact Hf|]. split; [|exact Hrec].
  intros Happ. eapply grows_trans; [|by apply Hg]. by apply grows_same_files.
Qed.

(** [respond] logs the marshalled record as one line of the info log, or
    nothing when the record cannot be marshalled. *)
Lemma respond_spec results w :
  exists w', respond InfoLogger results w = (Ret tt, w') /\
    match json_Marshal results with
    | Ok js => files w' = files (logged InfoLogger [js] w)
    | Err _ => files w' = files w
    end.
Proof.
  unfold respond. destruct (json_Marshal results) as [js|e].
  - erewrite bind_ret_eq by apply Println_ret.
    eexists. split; [reflexivity|]. reflexivity.
  - destruct (http_Error_ret e StatusInternalServerError w) as (w' & -> & _ & Hf & _).
    by exists w'.
Qed.

(** Every way through [pingHandler]: either no file is touched, or the
    handler ends in [respond] after the probes. *)
Lemma pingHandler_cases r w :
  (exists o w', pingHandler InfoLogger ErrLogger r w = (o, w') /\ files w' = files w) \/
  (exists results w2,
     pingHandler InfoLogger ErrLogger r w = respond InfoLogger results w2 /\
     (forall path, path <> fname (out ErrLogger) -> files w2 !! path = files w !! path) /\
     (has_flag (fflag (out ErrLogger)) O_APPEND = true -> grows w w2)).
Proof.
  destruct (String.eqb (Path r) "/ping") eqn:Hp.
  2:{ left. unfold pingHandler. rewrite Hp. cbn [negb].
      destruct (http_Error_ret "404 page not found" StatusNotFound w)
        as (w' & Hw & _ & Hf & _). eauto. }
  destruct (String.eqb (Method r) "GET") eqn:Hm.
  2:{ left. unfold pingHandler. rewrite Hp, Hm. cbn [negb].
      eexists _, _. split; [reflexivity|].
      unfold w_WriteHeader, modify. by destruct (status (resp w)). }
  apply String.eqb_eq in Hp, Hm.
  destruct (ping_NewPinger (net_SplitHostPort (RemoteAddr r))) as [u|e] eqn:Hnew.
  2:{ left. unfold pingHandler. rewrite Hp, Hm. cbn.
      erewrite bind_ret_eq by reflexivity. rewrite Hnew.
      eexists _, _. split; [reflexivity|]. reflexivity. }
  destruct (ping_Run (net_SplitHostPort (RemoteAddr r)) ICMPCount ICMPTimeout)
    as [d [stat|e]] eqn:Hrun.
  2:{ left. unfold pingHandler. rewrite Hp, Hm. cbn.
      erewrite bind_ret_eq by reflexivity. rewrite Hnew.
      erewrite bind_ret_eq by (unfold pinger_Run; rewrite Hrun; reflexivity).
      eexists _, _. split; [reflexivity|]. reflexivity. }
  right.
  destruct (pingHandler_eq r w u stat Hp Hm Hnew) as (results & w2 & Heq & _ & Hf & Hg & _).
  { by rewrite Hrun. }
  eauto.
Qed.

(** The trace of the read loop: each message read is written back, with
    its message type, before the next read. *)
Lemma echoLoop_trace (parses : list byte -> Prop) c script : forall w,
  exists evs,
    trace (echoLoop InfoLogger ErrLogger c script w).2 = trace w ++ evs /\
    echoes parses evs.
Proof.
  induction script as [|[mt message wr|err] script IH]; intros w.
  - exists []. split; [by rewrite app_nil_r|apply echoes_nil].
  - cbn [echoLoop].
    erewrite bind_ret_eq by reflexivity.
    set (w1 := emit (EvWsRead c mt message) w).
    set (log := if iface_neq_string _ _ then _ else _).
    assert (exists w2, log w1 = (Ret tt, w2) /\ trace w2 = trace w1) as (w2 & Hlog & Ht2).
    { subst log. destruct (iface_neq_string _ _).
      - rewrite Println_ret. eexists. split; [reflexivity|].
        by destruct (logged_frame InfoLogger [string_of_list_byte message] w1) as (_ & -> & _).
      - by exists w1. }
    erewrite bind_ret_eq by exact Hlog.
    erewrite bind_ret_eq by reflexivity.
    set (w3 := emit (EvWsWrite c mt message wr) w2).
    assert (Ht3 : trace w3 = trace w ++ [EvWsRead c mt message; EvWsWrite c mt message wr]).
    { subst w3 w1. cbn [trace emit]. rewrite Ht2. cbn [trace emit].
      by rewrite <- app_assoc. }
    destruct wr as [u|e].
    + destruct (IH w3) as (evs & -> & Hevs).
      exists (EvWsRead c mt message :: EvWsWrite c mt message (Ok u) :: evs).
      split; [by rewrite Ht3, <- app_assoc|].
      by apply (echoes_round parses c mt message [] (Ok u) evs).
    + rewrite Println_ret. cbn [snd].
      destruct (logged_frame ErrLogger ["write:"; e] w3) as (_ & -> & _).
      exists [EvWsRead c mt message; EvWsWrite c mt message (Err e)].
      split; [exact Ht3|].
      apply (echoes_round parses c mt message [] (Err e) []); [done|apply echoes_nil].
  - cbn [echoLoop]. erewrite bind_ret_eq by reflexivity.
    rewrite Println_ret. cbn [snd].
    destruct (logged_frame ErrLogger ["read:"; err] (emit (EvWsReadErr c err) w))
      as (_ & -> & _).
    exists [EvWsReadErr c err]. split; [reflexivity|].
    apply echoes_no_read. by repeat constructor.
Qed.

(** The same for the whole handler, whatever the request. *)
Lemma echoHandler_trace (parses : list byte -> Prop) r script w :
  exists evs,
    trace (echoHandler InfoLogger ErrLogger r script w).2 = trace w ++ evs /\
    echoes parses evs.
Proof.
  unfold echoHandler.
  destruct (negb (Path r =? "/echo")%string).
  { destruct (http_Error_ret "404 page not found" StatusNotFound w)
      as (w' & Hw & Ht & _). unfold http_NotFound. rewrite Hw.
    exists []. split; [by rewrite app_nil_r|apply echoes_nil]. }
  destruct (negb (Method r =? "GET")%string).
  { exists []. split; [|apply echoes_nil]. rewrite app_nil_r.
    unfold w_WriteHeader, w_Write, modify, mbind, IO_bind, io_bind.
    by destruct (status (resp w)). }
  destruct (websocket_Upgrade r) as [c|e].
  - unfold deferred.
    destruct (echoLoop_trace parses c script w) as (evs & Ht & Hevs).
    destruct (echoLoop InfoLogger ErrLogger c script w) as [[u|msg|code|] w'];
      cbn [snd] in *.
    + exists (evs ++ [EvWsClose c]). cbn [trace emit]. rewrite Ht, <- app_assoc.
      split; [done|]. by apply echoes_snoc.
    + exists (evs ++ [EvWsClose c]). cbn [trace emit]. rewrite Ht, <- app_assoc.
      split; [done|]. by apply echoes_snoc.
    + by exists evs.
    + by exists evs.
  - rewrite Println_ret. cbn [snd].
    destruct (logged_frame ErrLogger ["upgrade:"; e] w) as (_ & -> & _).
    exists []. split; [by rewrite app_nil_r|apply echoes_nil].
Qed.

(** A failed dial whose error is of another kind yields the value 0. *)
Lemma pingTcp_failed_zero dst seq timeout w msg :
  conn (net_DialTimeout (dials w) dst timeout) = Err msg ->
  strings_Contains msg "connection refused" = false ->
  (pingTcp ErrLogger dst seq timeout w).1 = Ret 0%float.
Proof. intros Hc Hmsg. by rewrite pingTcp_eq, Hc, Hmsg. Qed.

(** C8: a TCP probe whose dial fails with an error that does not contain
    "connection refused" makes [pingTcp] return 0; [pingHandler] appends
    that 0 to the port's [TimesInms], and the port's statistics, [MinRtt]
    among them, are those of the sample with the 0 in it.  The probe is
    probe [x] of port number [i]: dial number [5 * i + x] of the request. *)
Theorem failed_probe_counts_as_zero r w u stat i port x msg :
  let clientIP := net_SplitHostPort (RemoteAddr r) in
  let dst := clientIP +:+ ":" +:+ pretty port in
  Path r = "/ping" -> Method r = "GET" ->
  ping_NewPinger clientIP = Ok u ->
  (ping_Run clientIP ICMPCount ICMPTimeout).2 = Ok stat ->
  PortsToTest !! i = Some port -> (x < 5)%nat ->
  conn (net_DialTimeout (dials w + 5 * i + x) dst TCPTimeout) = Err msg ->
  strings_Contains msg "connection refused" = false ->
  (forall seq wd, dials wd = (dials w + 5 * i + x)%nat ->
     (pingTcp ErrLogger dst seq TCPTimeout wd).1 = Ret 0%float) /\
  exists results w2 rec,
    pingHandler InfoLogger ErrLogger r w = respond InfoLogger results w2 /\
    Results.TcpPing results !! i = Some rec /\
    tcpResult.Destination rec = dst /\
    tcpResult.TimesInms rec !! x = Some 0%float /\
    tcpResult.MinRtt rec = stats_Min (tcpResult.TimesInms rec) /\
    tcpResult.AvgRtt rec = stats_Mean (tcpResult.TimesInms rec) /\
    tcpResult.MaxRtt rec = stats_Max (tcpResult.TimesInms rec) /\
    tcpResult.StdDevRtt rec = stats_StandardDeviation (tcpResult.TimesInms rec).
Proof.
  intros clientIP dst Hp Hm Hnew Hrun Hport Hx Hc Hmsg. split.
  - intros seq wd Hwd. apply (pingTcp_failed_zero dst seq TCPTimeout wd msg); [|done].
    by rewrite Hwd.
  - destruct (pingHandler_eq r w u stat Hp Hm Hnew Hrun)
      as (results & w2 & Heq & _ & _ & _ & Hrec).
    destruct (Hrec i port Hport) as (rec & Hi & Hdst & _ & Hstats & Hzero).
    exists results, w2, rec. split; [exact Heq|]. split; [exact Hi|].
    split; [exact Hdst|]. split.
    + apply (Hzero x msg); [exact Hx| |exact Hmsg].
      rewrite Hdst. exact Hc.
    + unfold getStats in Hstats. by injection Hstats as -> -> -> ->.
Qed.

End Server.

(** Opening a log file keeps what the files hold. *)
Lemma OpenFile_log name w :
  match os_OpenFile name logFlags w with
  | (Ret (Ok f), w') =>
      f = {| fname := name; fflag := logFlags |} /\ grows w w'
  | (Ret (Err _), w') => w' = w
  | _ => False
  end.
Proof.
  unfold os_OpenFile. case_decide; [done|].
  destruct (files w !! name) as [old|] eqn:Hold.
  - change (has_flag logFlags O_TRUNC) with false. cbv iota.
    split; [done|]. by apply grows_same_files.
  - change (has_flag logFlags O_CREATE) with true. cbv iota.
    split; [done|]. intros path old Hp. exists "".
    rewrite append_nil_r. cbn [files set_fs].
    rewrite lookup_insert_ne; [done|]. congruence.
Qed.

(** What [main] has done when it gets to serving: both loggers write in
    append mode to the files named by the flags. *)
Lemma main_ret `{!Env} logfile errlog w0 IL EL w1 :
  main logfile errlog w0 = (Ret (IL, EL), w1) ->
  IL = log_New {| fname := default "logFile.jsonl" logfile; fflag := logFlags |} "" 0 /\
  EL = log_New {| fname := default "errlog.txt" errlog; fflag := logFlags |} ""
               (Z.lor Ldate Ltime) /\
  grows w0 w1.
Proof.
  unfold main, mbind, IO_bind, io_bind, log_Fatal, os_Exit.
  pose proof (OpenFile_log (default "logFile.jsonl" logfile) w0) as H1.
  destruct (os_OpenFile (default "logFile.jsonl" logfile) logFlags w0)
    as [[[f|e]| | |] wa]; try done.
  pose proof (OpenFile_log (default "errlog.txt" errlog) wa) as H2.
  destruct (os_OpenFile (default "errlog.txt" errlog) logFlags wa)
    as [[[f'|e']| | |] wb]; try done.
  destruct H1 as [-> Hg1], H2 as [-> Hg2].
  intros [= <- <- <-]. split; [done|]. split; [done|].
  by eapply grows_trans.
Qed.

Lemma emitRecord_spec `{!JsonMarshal Engine.TraceResult} log rec w :
  exists w', Engine.emitRecord log rec w = (Ret tt, w') /\
    match json_Marshal rec with
    | Ok js => files w' = <[log := default "" (files w !! log) +:+ (js +:+ newline)]> (files w)
    | Err _ => files w' = files w
    end.
Proof.
  unfold Engine.emitRecord. destruct (json_Marshal rec) as [js|e]; [|by exists w].
  unfold file_Write. cbn [fname fflag].
  change (has_flag (Z.lor O_WRONLY O_APPEND) O_APPEND) with true. cbv iota.
  eexists. split; [reflexivity|]. reflexivity.
Qed.


(** The encoders of the examples write on one line. *)
Lemma strip_compact s : strings_Contains (Example.strip s) newline = false.
Proof.
  induction s as [|c s IH]; [reflexivity|]. cbn [Example.strip].
  destruct (Ascii.eqb c (ascii_of_nat 10)) eqn:Hc; [exact IH|].
  cbn [strings_Contains]. rewrite IH, orb_false_r.
  unfold newline. cbn [String.prefix].
  destruct (ascii_dec (ascii_of_nat 10) c) as [<-|Hne]; [|reflexivity].
  by rewrite Ascii.eqb_refl in Hc.
Qed.

Lemma stripped_compact r js :
  Example.stripped r = Ok js -> strings_Contains js newline = false.
Proof. destruct r as [s|e]; [|done]. intros [= <-]. apply strip_compact. Qed.

Lemma example_results_compact : @compact Results.t Example.marshal_results.
Proof. intros a js. apply stripped_compact. Qed.

Lemma example_trace_compact : @compact Engine.TraceResult Example.marshal_trace.
Proof. intros a js. apply stripped_compact. Qed.


(** The refused first dial of the example network against its third dial,
    which connects in the same time. *)
Lemma pingTcp_refused_as_measured_witness :
  let refused := pingTcp (H := Example.env) Example.errLogger "198.51.100.7:53" 7
                   TCPTimeout Example.world0 in
  let connected := pingTcp (H := Example.env) Example.errLogger "198.51.100.7:53" 7
                     TCPTimeout (set_dials 2 Example.world0) in
  refused.1 = Ret 12%float /\ connected.1 = Ret 12%float /\
  files refused.2 = files connected.2.
Proof.
  pose proof (pingTcp_refused_as_measured (H := Example.env) Example.errLogger
    "198.51.100.7:53" 7 TCPTimeout Example.world0 (set_dials 2 Example.world0)
    (12 * Millisecond) 2%nat
    "dial tcp 198.51.100.7:53: connect: connection refused"
    eq_refl eq_refl eq_refl eq_refl eq_refl eq_refl) as (H1 & H2 & _ & H4 & _).
  exact (conj H1 (conj H2 H4)).
Defined.

(** Probe 1 of port 53 under the example network: the dial times out. *)
Lemma failed_probe_counts_as_zero_witness :
  exists results w2 rec,
    pingHandler (H := Example.env) Example.infoLogger Example.errLogger
      Example.get_ping Example.world0
    = respond (H := Example.env) Example.infoLogger results w2 /\
    Results.TcpPing results !! 0%nat = Some rec /\
    tcpResult.TimesInms rec !! 1%nat = Some 0%float /\
    tcpResult.MinRtt rec = Example.Min (tcpResult.TimesInms rec).
Proof.
  destruct (failed_probe_counts_as_zero (H := Example.env) Example.infoLogger
    Example.errLogger Example.get_ping Example.world0 tt
    {| ping.PacketsSent := 5; ping.PacketsRecv := 5; ping.PacketLoss := 0%float;
       ping.MinRtt := 7 * Millisecond; ping.AvgRtt := 8 * Millisecond;
       ping.MaxRtt := 9 * Millisecond; ping.StdDevRtt := Millisecond |}
    0%nat 53 1%nat "dial tcp 198.51.100.7:53: i/o timeout"
    eq_refl eq_refl eq_refl eq_refl eq_refl ltac:(lia) eq_refl eq_refl)
    as (_ & results & w2 & rec & H1 & H2 & _ & H4 & H5 & _).
  exists results, w2, rec. exact (conj H1 (conj H2 (conj H4 H5))).
Defined.

End TestServerFacts.

(** ** The handlers of the measurement server *)
Module HandlersFacts.
Import Go GoFacts Handlers.

Section Handlers.
Context `{!Deps}.

(** When the loop over the query parameters lets the handler go on, either
    there was no parameter at all and the uuid is the one the loop started
    with, or the uuid is a parameter value that [isValidUUID] accepted. *)
Lemma queryLoop_some kvs : forall u w uuid w',
  queryLoop kvs u w = (Ret (Some uuid), w') ->
  (kvs = [] /\ uuid = u /\ w' = w) \/
  (kvs <> [] /\ isValidUUID uuid = true /\
   exists evs, trace w' = trace w ++ evs /\ EvValidUUID uuid true ∈ evs).
Proof.
  induction kvs as [|[k v] kvs IH]; intros u w uuid w' Hrun.
  - left. by injection Hrun as <- <-.
  - right. split; [done|]. cbn [queryLoop] in Hrun.
    assert (Hno : forall w0, (http_Error "Invalid UUID" StatusInternalServerError
                    ≫= fun _ => mret (M := IO) None) w0 <> (Ret (Some uuid), w')).
    { intros w0.
      destruct (http_Error_ret "Invalid UUID" StatusInternalServerError w0)
        as (w1 & Hw1 & _).
      erewrite bind_ret_eq by exact Hw1. discriminate. }
    destruct (String.eqb k "uuid"); [|by apply Hno in Hrun].
    destruct v as [|v0 v]; [discriminate|].
    erewrite bind_ret_eq in Hrun by reflexivity.
    destruct (isValidUUID v0) eqn:Hv; [|by apply Hno in Hrun].
    set (w1 := emit (EvValidUUID v0 true) w) in Hrun.
    destruct (IH v0 w1 uuid w' Hrun) as [(_ & -> & ->)|(_ & Hvalid & evs & Ht & Hin)].
    + split; [done|]. exists [EvValidUUID v0 true]. split; [done|]. set_solver.
    + split; [done|]. exists (EvValidUUID v0 true :: evs).
      split; [|set_solver]. rewrite Ht. subst w1. cbn [trace emit].
      by rewrite <- app_assoc.
Qed.

(** [traceHandler] once the parameters are accepted and the connection is
    upgraded. *)
Lemma traceHandler_eq r kvs w w1 uuid w2 c :
  checkHTTPParams r "/trace" w = (Ret false, w1) ->
  queryLoop kvs "" w1 = (Ret (Some uuid), w2) ->
  websocket_Upgrade r = Ok c ->
  traceHandler r kvs w = deferred (emit (EvWsClose c)) (tracing c uuid) w2.
Proof.
  intros Hcheck Hq Hup. unfold traceHandler.
  erewrite bind_ret_eq by exact Hcheck. cbv iota.
  erewrite bind_ret_eq by exact Hq. cbv iota. by rewrite Hup.
Qed.

(** C1, at the request without query parameters: the loop that validates
    has nothing to iterate over, so [traceHandler] goes on to
    [newZeroTrace] with the empty string as uuid, in the world the
    parameter check left: [isValidUUID] has not been called. *)
Theorem traceHandler_unvalidated_uuid r kvs w w1 c :
  checkHTTPParams r "/trace" w = (Ret false, w1) ->
  Query r = ∅ -> kvs ≡ₚ map_to_list (Query r) ->
  websocket_Upgrade r = Ok c ->
  traceHandler r kvs w = deferred (emit (EvWsClose c)) (tracing c "") w1 /\
  exists w2, tracing c "" w1
             = (zeroTrace_Run (newZeroTrace ifaceName c "") ≫= fun ran =>
                  match ran with
                  | Err err =>
                      Println l ["ZeroTrace Run Error: "; err] ≫= fun _ =>
                      http_Error err StatusInternalServerError
                  | Ok _ => mret tt
                  end) w2 /\
    trace w2 = trace w1 ++ [EvNewZeroTrace ifaceName c ""].
Proof.
  intros Hcheck Hq Hperm Hup.
  rewrite Hq, map_to_list_empty in Hperm. apply Permutation_nil_r in Hperm as ->.
  split.
  - by apply (traceHandler_eq r [] w w1 "" w1 c).
  - eexists. unfold tracing. erewrite bind_ret_eq by reflexivity.
    split; reflexivity.
Qed.

(** When the run returns an error the handler logs it, answers 500 with
    the error's text and returns; the deferred close has run. *)
Lemma tracing_error c uuid w w3 e :
  zeroTrace_Run (newZeroTrace ifaceName c uuid) (emit (EvNewZeroTrace ifaceName c uuid) w)
    = (Ret (Err e), w3) ->
  exists w',
    deferred (emit (EvWsClose c)) (tracing c uuid) w = (Ret tt, w') /\
    status (resp w') = Some (default StatusInternalServerError (status (resp w3))) /\
    body (resp w') = body (resp w3) +:+ e +:+ newline /\
    files w' = files (logged l ["ZeroTrace Run Error: "; e] w3) /\
    trace w' = trace w3 ++ [EvWsClose c].
Proof.
  intros Hrun. unfold deferred, tracing.
  erewrite bind_ret_eq by reflexivity.
  erewrite bind_ret_eq by exact Hrun. cbv iota.
  erewrite bind_ret_eq by apply Println_ret.
  destruct (http_Error_ret e StatusInternalServerError
              (logged l ["ZeroTrace Run Error: "; e] w3))
    as (w' & -> & Ht & Hf & Hs & Hb).
  destruct (logged_frame l ["ZeroTrace Run Error: "; e] w3)
    as (_ & Ht3 & _ & _ & _ & _ & Hr3 & _).
  eexists. split; [reflexivity|]. cbn [resp files trace emit].
  rewrite Hs, Hb, Hf, Ht, Hr3, Ht3. done.
Qed.

(** The trace of the read loop: a message whose payload parses is written
    back, with its message type, before the next read. *)
Lemma measure_echoLoop_trace c script : forall w,
  exists evs,
    trace (echoLoop c script w).2 = trace w ++ evs /\ echoes parses evs.
Proof.
  induction script as [|[mt message wr|err] script IH]; intros w.
  - exists []. split; [by rewrite app_nil_r|apply echoes_nil].
  - cbn [echoLoop].
    erewrite bind_ret_eq by reflexivity.
    set (w1 := emit (EvWsRead c mt message) w).
    destruct (json_Unmarshal message) as [wsData|e] eqn:Hparse.
    2:{ rewrite Println_ret. cbn [snd].
        destruct (logged_frame l ["unmarshal:"; e] w1) as (_ & -> & _).
        exists [EvWsRead c mt message]. split; [done|].
        apply echoes_unparsed; [|done]. unfold parses. by rewrite Hparse. }
    set (log := if iface_neq_string _ _ then _ else _).
    assert (exists w2 mid, log w1 = (Ret tt, w2) /\ trace w2 = trace w1 ++ mid /\
              Forall (fun e => is_ws_read e = false) mid) as (w2 & mid & Hlog & Ht2 & Hmid).
    { subst log. destruct (iface_neq_string _ _).
      2:{ exists w1, []. by rewrite app_nil_r. }
      destruct (assert_string _) as [wsUUID|].
      2:{ exists w1, []. by rewrite app_nil_r. }
      erewrite bind_ret_eq by reflexivity.
      destruct (isValidUUID wsUUID).
      - rewrite Println_ret. eexists _, [EvValidUUID wsUUID true].
        split; [reflexivity|].
        destruct (logged_frame l [string_of_list_byte message]
                    (emit (EvValidUUID wsUUID true) w1)) as (_ & -> & _).
        split; [done|]. by repeat constructor.
      - eexists _, [EvValidUUID wsUUID false]. split; [reflexivity|].
        split; [done|]. by repeat constructor. }
    erewrite bind_ret_eq by exact Hlog.
    erewrite bind_ret_eq by reflexivity.
    set (w3 := emit (EvWsWrite c mt message wr) w2).
    assert (Ht3 : trace w3 = trace w ++ EvWsRead c mt message
                               :: mid ++ [EvWsWrite c mt message wr]).
    { subst w3 w1. cbn [trace emit]. rewrite Ht2. cbn [trace emit].
      rewrite <- !app_assoc. done. }
    destruct wr as [u|e].
    + destruct (IH w3) as (evs & -> & Hevs).
      exists (EvWsRead c mt message :: mid ++ EvWsWrite c mt message (Ok u) :: evs).
      split.
      * rewrite Ht3, <- !app_assoc. cbn [app]. by rewrite <- app_assoc.
      * by apply echoes_round.
    + rewrite Println_ret. cbn [snd].
      destruct (logged_frame l ["write:"; e] w3) as (_ & -> & _).
      exists (EvWsRead c mt message :: mid ++ EvWsWrite c mt message (Err e) :: []).
      split; [exact Ht3|].
      apply echoes_round; [done|apply echoes_nil].
  - cbn [echoLoop]. erewrite bind_ret_eq by reflexivity.
    rewrite Println_ret. cbn [snd].
    destruct (logged_frame l ["read:"; err] (emit (EvWsReadErr c err) w))
      as (_ & -> & _).
    exists [EvWsReadErr c err]. split; [reflexivity|].
    apply echoes_no_read. by repeat constructor.
Qed.

(** The same for the handler, from the world the parameter check left. *)
Lemma measure_echoHandler_trace r script w w1 :
  checkHTTPParams r "/echo" w = (Ret false, w1) ->
  exists evs,
    trace (echoHandler r script w).2 = trace w1 ++ evs /\ echoes parses evs.
Proof.
  intros Hcheck. unfold echoHandler.
  erewrite bind_ret_eq by exact Hcheck. cbv iota.
  destruct (websocket_Upgrade r) as [c|e].
  - unfold deferred.
    destruct (measure_echoLoop_trace c script w1) as (evs & Ht & Hevs).
    destruct (echoLoop c script w1) as [[u|msg|code|] w']; cbn [snd] in *.
    + exists (evs ++ [EvWsClose c]). cbn [trace emit]. rewrite Ht, <- app_assoc.
      split; [done|]. by apply echoes_snoc.
    + exists (evs ++ [EvWsClose c]). cbn [trace emit]. rewrite Ht, <- app_assoc.
      split; [done|]. by apply echoes_snoc.
    + by exists evs.
    + by exists evs.
  - erewrite bind_ret_eq by apply Println_ret.
    destruct (http_Error_ret e StatusInternalServerError (logged l ["upgrade:"; e] w1))
      as (w' & -> & Ht & _). cbn [snd]. rewrite Ht.
    destruct (logged_frame l ["upgrade:"; e] w1) as (_ & -> & _).
    exists []. split; [by rewrite app_nil_r|apply echoes_nil].
Qed.

End Handlers.



(** A GET of [/trace] without a query string, on the example server. *)
Lemma traceHandler_unvalidated_uuid_witness :
  Example.canonical_uuid "" = false /\
  traceHandler (H := Example.deps_on Example.five_hops) (Example.get_trace ∅) []
    Example.world0
  = deferred (emit (EvWsClose 1))
      (tracing (H := Example.deps_on Example.five_hops) 1 "") Example.world0.
Proof.
  split; [reflexivity|].
  refine (proj1 (traceHandler_unvalidated_uuid (H := Example.deps_on Example.five_hops)
            (Example.get_trace ∅) [] Example.world0 Example.world0 1%nat
            eq_refl eq_refl _ eq_refl)).
  change (Query (Example.get_trace ∅)) with (∅ : gmap string (list string)).
  by rewrite map_to_list_empty.
Defined.


End HandlersFacts.

(** ** The probing engine *)
Module EngineFacts.
Import Go GoFacts Engine.

(** *** The registry *)

Lemma filter_tokens_NoDup (P : Token * Pending -> Prop) `{!forall x, Decision (P x)}
    (r : Registry) :
  NoDup r.*1 -> NoDup (filter P r).*1.
Proof.
  intros Hnd. eapply sublist_NoDup; [exact Hnd|].
  apply fmap_sublist, sublist_filter.
Qed.

Lemma is_pending_true tok r : is_pending tok r = true <-> tok ∈ r.*1.
Proof. unfold is_pending. by rewrite bool_decide_eq_true. Qed.

Lemma is_pending_false tok r : is_pending tok r = false <-> tok ∉ r.*1.
Proof. unfold is_pending. by rewrite bool_decide_eq_false. Qed.

Lemma register_NoDup tok e r r' :
  NoDup r.*1 -> register tok e r = inr r' -> NoDup r'.*1.
Proof.
  unfold register. destruct (is_pending tok r) eqn:Hp; [done|].
  intros Hnd [= <-]. rewrite fmap_app. apply NoDup_app. split; [done|].
  split; [|apply NoDup_singleton].
  intros x Hx Hin. apply list_elem_of_singleton in Hin. subst x.
  by apply is_pending_false in Hp.
Qed.

Lemma apply_op_NoDup r op : NoDup r.*1 -> NoDup (apply_op r op).*1.
Proof.
  intros Hnd. destruct op as [tok e|tok|t|o]; cbn [apply_op].
  - destruct (register tok e r) as [err|r'] eqn:Hr; [done|].
    by eapply register_NoDup.
  - unfold resolve, remove. destruct (find tok r); [|done].
    by apply filter_tokens_NoDup.
  - by apply filter_tokens_NoDup.
  - by apply filter_tokens_NoDup.
Qed.

Lemma run_ops_NoDup ops : forall r, NoDup r.*1 -> NoDup (run_ops ops r).*1.
Proof.
  unfold run_ops. induction ops as [|op ops IH]; intros r Hnd; [done|].
  cbn [foldl]. by apply IH, apply_op_NoDup.
Qed.

(** In a registry without repeated tokens an entry is found by its token. *)
Lemma NoDup_tokens_agree (r : Registry) tok e e' :
  NoDup r.*1 -> (tok, e) ∈ r -> (tok, e') ∈ r -> e = e'.
Proof.
  induction r as [|[t x] r IH]; intros Hnd H1 H2; [by apply not_elem_of_nil in H1|].
  cbn [fmap list_fmap fst] in Hnd. apply NoDup_cons in Hnd as [Hnotin Hnd].
  apply elem_of_cons in H1 as [H1|H1]; apply elem_of_cons in H2 as [H2|H2].
  - congruence.
  - exfalso. apply Hnotin. injection H1 as <- _.
    apply list_elem_of_fmap. by exists (tok, e').
  - exfalso. apply Hnotin. injection H2 as <- _.
    apply list_elem_of_fmap. by exists (tok, e).
  - by apply IH.
Qed.

(** The steps of a session keep the tokens of the registry distinct. *)
Lemma step_registry_NoDup cfg y a :
  NoDup (reg y).*1 -> NoDup (reg (step cfg y a)).*1.
Proof.
  intros Hnd. destruct a as [|tok|pkt| | | |d|op]; cbn [step].
  - unfold start. by destruct (state (sess y)).
  - unfold send. destruct (state (sess y)); try done.
    destruct (register _ _ _) as [err|r] eqn:Hr; [done|].
    by eapply register_NoDup.
  - unfold listen. destruct (status_of_type _); [|done].
    destruct (embedded pkt) as [tok|]; [|done].
    destruct (resolve tok (reg y)) as [[e r]|] eqn:Hr; [|done].
    assert (NoDup r.*1).
    { unfold resolve in Hr. destruct (find tok (reg y)); [|done].
      injection Hr as _ <-. by apply filter_tokens_NoDup. }
    destruct (state (sess y)); try done.
    destruct (outstanding y); [|done]. by case_decide.
  - unfold expire. destruct (state (sess y)); try done.
    destruct (outstanding y); [|done]. case_decide; [|done].
    by apply filter_tokens_NoDup.
  - unfold advance. destruct (state (sess y)); try done.
    all: destruct (reached_target _); [done|]; by case_decide.
  - unfold close. destruct (terminal _); [done|]. by apply filter_tokens_NoDup.
  - done.
  - by apply apply_op_NoDup.
Qed.

Lemma exec_registry_NoDup cfg acts : forall y,
  NoDup (reg y).*1 -> NoDup (reg (exec cfg acts y)).*1.
Proof.
  unfold exec. induction acts as [|a acts IH]; intros y Hnd; [done|].
  cbn [foldl]. by apply IH, step_registry_NoDup.
Qed.

(** C4: whatever operations the sessions, the listener and the reaper
    apply to the registry, and in whatever order, the registry never holds
    two pending entries for one token; and a token that is pending is not
    taken again: the registration is rejected with a token collision and
    the registry is left as it was.  A session running against such a
    registry, with whatever else happens between its steps, keeps it so. *)
Theorem registry_one_entry_per_token ops :
  let r := run_ops ops [] in
  NoDup r.*1 /\
  (forall tok e e', (tok, e) ∈ r -> (tok, e') ∈ r -> e = e') /\
  (forall tok e, is_pending tok r = true ->
     register tok e r = inl TokenCollisionError /\
     run_ops (ops ++ [OpRegister tok e]) [] = r) /\
  (forall cfg acts id target c t,
     NoDup (reg (exec cfg acts (initial id target c t r))).*1).
Proof.
  cbv zeta. assert (Hnd : NoDup (run_ops ops []).*1).
  { apply run_ops_NoDup. constructor. }
  split; [exact Hnd|]. split; [|split].
  - intros tok e e'. by apply NoDup_tokens_agree.
  - intros tok e Hp. unfold run_ops at 2. rewrite foldl_snoc.
    fold (run_ops ops []). cbn [apply_op]. unfold register. by rewrite Hp.
  - intros cfg acts id target c t. by apply exec_registry_NoDup.
Qed.

(** Two sessions and the reaper on one registry: the second registration
    of token 7 is rejected while the first is pending, and accepted once
    the reaper has evicted it. *)
Lemma registry_one_entry_per_token_witness :
  let e1 := {| owner := 1; probe := {| probe_ttl := 1; token := 7; sentAt := 0 |};
               deadline := 10 |} in
  let e2 := {| owner := 2; probe := {| probe_ttl := 4; token := 7; sentAt := 5 |};
               deadline := 15 |} in
  run_ops [OpRegister 7 e1; OpRegister 7 e2] [] = [(7, e1)] /\
  run_ops [OpRegister 7 e1; OpReap 12; OpRegister 7 e2] [] = [(7, e2)] /\
  NoDup (run_ops [OpRegister 7 e1; OpRegister 7 e2] []).*1.
Proof.
  intros e1 e2. split; [reflexivity|]. split; [reflexivity|].
  exact (proj1 (registry_one_entry_per_token [OpRegister 7 e1; OpRegister 7 e2])).
Defined.

(** *** The state machine *)

Lemma Forall_removelast {A} (P : A -> Prop) (l : list A) :
  Forall P l -> Forall P (removelast l).
Proof.
  induction 1 as [|x l Hx Hl IH]; [constructor|].
  destruct l as [|y l]; [constructor|].
  change (Forall P (x :: removelast (y :: l))). by constructor.
Qed.

Lemma snoc_ttls floor (l : list HopResult) h :
  ttl <$> l = seq floor (length l) -> ttl h = (floor + length l)%nat ->
  ttl <$> (l ++ [h]) = seq floor (length (l ++ [h])).
Proof.
  intros Hl Hh. rewrite fmap_app, length_app, Hl. cbn [length fmap list_fmap].
  rewrite Nat.add_1_r, seq_S. by rewrite Hh.
Qed.

Lemma not_reached_short s :
  hops s <> [] -> reached_target s = false ->
  short_of_target s (removelast (hops s)) -> short_of_target s (hops s).
Proof.
  unfold reached_target, short_of_target. intros Hne Hr Hs.
  destruct (exists_last Hne) as (pre & h & Heq). rewrite Heq in *.
  rewrite removelast_last in Hs. rewrite last_snoc in Hr.
  apply bool_decide_eq_false in Hr.
  apply Forall_app. split; [done|]. by repeat constructor.
Qed.

Lemma step_inv cfg y a :
  session_inv cfg (sess y) -> session_inv cfg (sess (step cfg y a)).
Proof.
  intros Hinv. pose proof Hinv as [Httl Hst].
  destruct a as [|tok|pkt| | | |d|op]; cbn [step]; try exact Hinv.
  - unfold start. destruct (state (sess y)) eqn:Es; try exact Hinv.
    split; [done|]. cbn. rewrite Hst. cbn. split; [lia|constructor].
  - unfold send. destruct (state (sess y)) eqn:Es; try exact Hinv.
    destruct (register _ _ _); [exact Hinv|].
    split; [done|]. done.
  - unfold listen.
    destruct (status_of_type _); [|exact Hinv].
    destruct (embedded pkt) as [tok|]; [|exact Hinv].
    destruct (resolve tok (reg y)) as [[e r]|]; [|exact Hinv].
    destruct (state (sess y)) eqn:Es; try exact Hinv.
    destruct (outstanding y) as [p|]; [|exact Hinv].
    case_decide; [|exact Hinv].
    destruct Hst as [Ht Hshort]. split.
    + cbn. apply snoc_ttls; [done|]. by cbn.
    + cbn. rewrite removelast_last, length_app. cbn.
      split; [by destruct (hops (sess y))|]. split; [lia|done].
  - unfold expire. destruct (state (sess y)) eqn:Es; try exact Hinv.
    destruct (outstanding y) as [p|]; [|exact Hinv].
    case_decide; [|exact Hinv].
    destruct Hst as [Ht Hshort]. split.
    + cbn. apply snoc_ttls; [done|]. by cbn.
    + cbn. rewrite removelast_last, length_app. cbn.
      split; [by destruct (hops (sess y))|]. split; [lia|done].
  - unfold advance.
    destruct (state (sess y)) eqn:Es; try exact Hinv.
    all: destruct Hst as (Hne & Ht & Hshort).
    all: destruct (reached_target (sess y)) eqn:Hr; [by split|].
    all: case_decide; [by split|].
    all: split; [done|]; cbn; split; [lia|].
    all: by apply (not_reached_short (sess y)).
  - unfold close. destruct (terminal (state (sess y))) eqn:Et; [exact Hinv|].
    split; [done|]. cbn.
    destruct (state (sess y)); try done.
    + rewrite Hst. constructor.
    + destruct Hst as [_ Hs]. by apply Forall_removelast.
    + destruct Hst as [_ Hs]. by apply Forall_removelast.
    + by destruct Hst as (_ & _ & ?).
    + by destruct Hst as (_ & _ & ?).
Qed.

Lemma exec_inv cfg acts : forall y,
  session_inv cfg (sess y) -> session_inv cfg (sess (exec cfg acts y)).
Proof.
  unfold exec. induction acts as [|a acts IH]; intros y Hy; [done|].
  cbn [foldl]. by apply IH, step_inv.
Qed.

Lemma reachable_inv cfg y : reachable cfg y -> session_inv cfg (sess y).
Proof.
  intros (id & target & c & t & r & acts & ->). apply exec_inv.
  split; [done|]. done.
Qed.

Lemma reachable_exec cfg acts y : reachable cfg y -> reachable cfg (exec cfg acts y).
Proof.
  intros (id & target & c & t & r & acts0 & ->).
  exists id, target, c, t, r, (acts0 ++ acts). unfold exec. by rewrite foldl_app.
Qed.

(** No transition leaves [Completed] or [Aborted]. *)
Lemma terminal_step cfg y a :
  terminal (state (sess y)) = true -> sess (step cfg y a) = sess y.
Proof.
  intros Ht. destruct a as [|tok|pkt| | | |d|op]; cbn [step]; try done.
  - unfold start. by destruct (state (sess y)).
  - unfold send. by destruct (state (sess y)).
  - unfold listen. destruct (status_of_type _); [|done].
    destruct (embedded pkt); [|done]. destruct (resolve _ _) as [[e r]|]; [|done].
    by destruct (state (sess y)).
  - unfold expire. by destruct (state (sess y)).
  - unfold advance. by destruct (state (sess y)).
  - unfold close. by rewrite Ht.
Qed.

Lemma terminal_exec cfg acts : forall y,
  terminal (state (sess y)) = true -> sess (exec cfg acts y) = sess y.
Proof.
  unfold exec. induction acts as [|a acts IH]; intros y Ht; [done|].
  cbn [foldl]. rewrite IH; rewrite terminal_step; done.
Qed.

(** Once the target's answer is recorded nothing is probed any more: a
    step leaves the session as it is, completes it, or aborts it when the
    connection closes. *)
Lemma settled_step cfg y a :
  settled (sess y) ->
  settled (sess (step cfg y a)) /\
  hops (sess (step cfg y a)) = hops (sess y) /\
  (state (sess (step cfg y a)) = state (sess y) \/
   state (sess (step cfg y a)) = Completed \/
   (a = AClose /\ state (sess (step cfg y a)) = Aborted)).
Proof.
  intros Hy.
  assert (Hsame : settled (sess y) /\ hops (sess y) = hops (sess y) /\
            (state (sess y) = state (sess y) \/ state (sess y) = Completed \/
             (a = AClose /\ state (sess y) = Aborted))) by auto.
  destruct (terminal (state (sess y))) eqn:Ht.
  { by rewrite terminal_step. }
  pose proof Hy as [Hr Hst].
  destruct a as [|tok|pkt| | | |d|op]; cbn [step]; try exact Hsame.
  - unfold start. destruct (state (sess y)) eqn:Es;
      first [done|cbn; rewrite ?Es; exact Hsame].
  - unfold send. destruct (state (sess y)) eqn:Es;
      first [done|cbn; rewrite ?Es; exact Hsame].
  - unfold listen. destruct (status_of_type _); [|exact Hsame].
    destruct (embedded pkt); [|exact Hsame].
    destruct (resolve _ _) as [[e r]|]; [|exact Hsame].
    destruct (state (sess y)) eqn:Es; first [done|cbn; rewrite ?Es; exact Hsame].
  - unfold expire. destruct (state (sess y)) eqn:Es;
      first [done|cbn; rewrite ?Es; exact Hsame].
  - unfold advance. destruct (state (sess y)) eqn:Es; try done.
    all: rewrite Hr; cbn; unfold settled, reached_target in *; cbn; auto.
  - unfold close. rewrite Ht. cbn. unfold settled, reached_target in *. cbn.
    destruct (state (sess y)); try done; auto 6.
Qed.

Lemma settled_exec cfg acts : forall y,
  settled (sess y) ->
  settled (sess (exec cfg acts y)) /\ hops (sess (exec cfg acts y)) = hops (sess y).
Proof.
  unfold exec. induction acts as [|a acts IH]; intros y Hy; [done|].
  cbn [foldl]. destruct (settled_step cfg y a Hy) as (Hs & Hh & _).
  destruct (IH _ Hs) as [Hs' Hh']. split; [done|]. by rewrite Hh'.
Qed.

(** A hop answered by the target is the last one, and the session is
    settled. *)
Lemma target_hop_settles cfg s pre h post :
  session_inv cfg s ->
  hops s = pre ++ h :: post -> responderIP h = Some (targetIP s) ->
  post = [] /\ settled s.
Proof.
  intros [_ Hst] Hh Hresp.
  assert (Hin : ~ short_of_target s (hops s)).
  { rewrite Hh. intros Hs. apply Forall_app in Hs as [_ Hs]. by inversion Hs. }
  assert (Hlast : short_of_target s (removelast (hops s)) -> post = [] /\ reached_target s = true).
  { rewrite Hh. intros Hs. destruct post as [|h' post].
    - split; [done|]. unfold reached_target. rewrite Hh, last_snoc.
      by apply bool_decide_eq_true.
    - exfalso. rewrite removelast_app in Hs by done.
      apply Forall_app in Hs as [_ Hs]. cbn in Hs. by inversion Hs. }
  unfold settled.
  destruct (state s) eqn:Es.
  - rewrite Hst in Hh. by destruct pre.
  - destruct Hst as [_ Hs]. by destruct (Hin Hs).
  - destruct Hst as [_ Hs]. by destruct (Hin Hs).
  - destruct Hst as (_ & _ & Hs). by destruct (Hlast Hs).
  - destruct Hst as (_ & _ & Hs). by destruct (Hlast Hs).
  - destruct Hst as [_ Hs]. by destruct (Hlast Hs).
  - by destruct (Hlast Hst).
Qed.






(** *** A whole trace *)

Section Run.
Context `{!TokenScheme} (cfg : Config) (net : Net).
Hypothesis Hfresh : fresh_scheme.

(** Among the first [length r + 1] attempts one derives a token that is
    not pending. *)
Lemma fresh_attempt c t (r : Registry) :
  exists k, (k <= length r)%nat /\ deriveToken c t k ∉ r.*1.
Proof.
  destruct (decide (Exists (fun k => deriveToken c t k ∉ r.*1) (seq 0 (S (length r)))))
    as [Hex|Hall].
  - apply Exists_exists in Hex as (k & Hk & Hnot). exists k. split; [|done].
    apply elem_of_seq in Hk. lia.
  - exfalso. apply not_Exists_Forall in Hall; [|intros k; apply _].
    assert (Hsub : deriveToken c t <$> seq 0 (S (length r)) ⊆+ r.*1).
    { apply NoDup_submseteq.
      - apply NoDup_fmap_2; [|apply NoDup_seq]. intros a1 a2. apply Hfresh.
      - intros x Hx. apply list_elem_of_fmap in Hx as (k & -> & Hk).
        rewrite Forall_forall in Hall. specialize (Hall k Hk). cbn in Hall.
        by destruct (decide (deriveToken c t k ∈ r.*1)). }
    apply submseteq_length in Hsub.
    rewrite !length_fmap, length_seq in Hsub. lia.
Qed.

Lemma send_ok tok t y :
  state (sess y) = Probing t -> tok ∉ (reg y).*1 ->
  send cfg tok y =
    {| sess := with_state (AwaitingResponse t) (sess y);
       outstanding := Some {| probe_ttl := t; token := tok; sentAt := clock y |};
       reg := reg y ++ [(tok, {| owner := connection (sess y);
                                 probe := {| probe_ttl := t; token := tok;
                                             sentAt := clock y |};
                                 deadline := clock y + hopTimeout cfg |})];
       clock := clock y |}.
Proof.
  intros Hst Hnot. unfold send, register. rewrite Hst.
  by rewrite (proj2 (is_pending_false tok (reg y)) Hnot).
Qed.

Lemma send_collision tok t y :
  state (sess y) = Probing t -> tok ∈ (reg y).*1 -> send cfg tok y = y.
Proof.
  intros Hst Hin. unfold send, register. rewrite Hst.
  by rewrite (proj2 (is_pending_true tok (reg y)) Hin).
Qed.

(** The retries end with an accepted token. *)
Lemma sendFresh_first retries : forall attempt k t y,
  state (sess y) = Probing t -> (k <= retries)%nat ->
  deriveToken (connection (sess y)) t (attempt + k) ∉ (reg y).*1 ->
  exists tok, (tok ∉ (reg y).*1) /\ sendFresh cfg retries attempt t y = send cfg tok y.
Proof.
  induction retries as [|retries IH]; intros attempt k t y Hst Hk Hnot.
  - assert (k = 0)%nat as -> by lia. rewrite Nat.add_0_r in Hnot.
    exists (deriveToken (connection (sess y)) t attempt). split; [done|].
    cbn [sendFresh]. rewrite (send_ok _ t) by done. reflexivity.
  - destruct (decide (deriveToken (connection (sess y)) t attempt ∈ (reg y).*1))
      as [Hin|Hnin].
    + cbn [sendFresh]. rewrite (send_collision _ t) by done. rewrite Hst.
      destruct k as [|k]; [by rewrite Nat.add_0_r in Hnot|].
      apply (IH (S attempt) k t y Hst); [lia|].
      by replace (S attempt + k)%nat with (attempt + S k)%nat by lia.
    + exists (deriveToken (connection (sess y)) t attempt). split; [done|].
      cbn [sendFresh]. rewrite (send_ok _ t) by done. reflexivity.
Qed.

Lemma sendFresh_spec t y :
  state (sess y) = Probing t ->
  exists tok, (tok ∉ (reg y).*1) /\
    sendFresh cfg (length (reg y)) 0 t y = send cfg tok y.
Proof.
  intros Hst.
  destruct (fresh_attempt (connection (sess y)) t (reg y)) as (k & Hk & Hnot).
  by apply (sendFresh_first (length (reg y)) 0 k t y).
Qed.

Lemma find_new tok e (r : Registry) :
  tok ∉ r.*1 -> find tok (r ++ [(tok, e)]) = Some e.
Proof.
  induction r as [|[t x] r IH]; intros Hnot; cbn.
  - by rewrite decide_True.
  - cbn in Hnot. apply not_elem_of_cons in Hnot as [Hne Hnot].
    rewrite decide_False by done. by apply IH.
Qed.

(** One TTL of the sweep against what the network conditions say. *)
Lemma probeOnce_spec t y :
  state (sess y) = Probing t ->
  let y' := probeOnce cfg net y in
  targetIP (sess y') = targetIP (sess y) /\
  sessionID (sess y') = sessionID (sess y) /\
  match verdict cfg net t with
  | Hop h =>
      hops (sess y') = hops (sess y) ++ [h] /\
      (state (sess y') = HopRecorded t \/ state (sess y') = HopTimedOut t)
  | Abort part =>
      hops (sess y') = hops (sess y) ++ part /\ state (sess y') = Aborted
  end.
Proof.
  intros Hst. cbv zeta. unfold probeOnce, verdict. rewrite Hst.
  destruct (sendFresh_spec t y Hst) as (tok & Hnot & Hsend).
  rewrite Hsend, (send_ok tok t y Hst Hnot).
  set (p := {| probe_ttl := t; token := tok; sentAt := clock y |}).
  set (e := {| owner := connection (sess y); probe := p;
               deadline := clock y + hopTimeout cfg |}).
  assert (Hres : resolve tok (reg y ++ [(tok, e)])
                 = Some (e, remove tok (reg y ++ [(tok, e)]))).
  { unfold resolve. by rewrite find_new. }
  assert (Hclose : terminal (Probing t) = false) by done.
  destruct (net t) as [ty from d| | |d]; cbn [outstanding].
  - destruct (decide (d <= hopTimeout cfg)) as [Hd|Hd].
    + unfold listen, tick. cbn [reg embedded icmpType sess outstanding clock state with_state src].
      destruct (status_of_type ty) as [sta|].
      * change (token p) with tok. change (sentAt p) with (clock y).
        rewrite Hres. rewrite decide_True by done. cbn.
        replace (clock y + Z.max 0 d - clock y) with (Z.max 0 d) by lia.
        auto.
      * cbn. unfold expire. cbn. rewrite decide_True by lia. cbn. auto.
    + unfold expire, tick. cbn. rewrite decide_True by lia. cbn. auto.
  - unfold expire, tick. cbn. rewrite decide_True by lia. cbn. auto.
  - unfold close. rewrite Hst. cbn. by rewrite app_nil_r.
  - destruct (decide (d <= hopTimeout cfg)) as [Hd|Hd].
    + unfold close, tick. cbn. by rewrite app_nil_r.
    + unfold close, expire, tick. cbn. rewrite decide_True by lia. cbn. auto.
Qed.

(** The sweep records what the network conditions determine. *)
Lemma sweep_spec n : forall t y,
  state (sess y) = Probing t ->
  let y' := sweep cfg net n y in
  hops (sess y') = hops (sess y) ++ (expected cfg net n (targetIP (sess y)) t).1 /\
  state (sess y') = (expected cfg net n (targetIP (sess y)) t).2 /\
  targetIP (sess y') = targetIP (sess y) /\
  sessionID (sess y') = sessionID (sess y).
Proof.
  induction n as [|n IH]; intros t y Hst; cbv zeta.
  - cbn. by rewrite app_nil_r.
  - cbn [sweep expected].
    destruct (probeOnce_spec t y Hst) as (Htgt & Hid & Hv).
    set (y1 := probeOnce cfg net y) in *.
    destruct (verdict cfg net t) as [h|part].
    + destruct Hv as [Hhops Hst1].
      assert (Hr : reached_target (sess y1)
                   = bool_decide (responderIP h = Some (targetIP (sess y)))).
      { unfold reached_target. by rewrite Hhops, last_snoc, Htgt. }
      assert (Hadv : advance cfg y1 =
        if reached_target (sess y1) then
          {| sess := finish Completed (clock y1) (sess y1);
             outstanding := outstanding y1; reg := reg y1; clock := clock y1 |}
        else if decide (maxHops cfg < t + 1)%nat then
          {| sess := finish Completed (clock y1) (sess y1);
             outstanding := outstanding y1; reg := reg y1; clock := clock y1 |}
        else
          {| sess := with_state (Probing (t + 1)) (sess y1);
             outstanding := outstanding y1; reg := reg y1; clock := clock y1 |}).
      { unfold advance. by destruct Hst1 as [-> | ->]. }
      rewrite Hadv, Hr.
      destruct (bool_decide (responderIP h = Some (targetIP (sess y)))); [by cbn|].
      destruct (decide (maxHops cfg < t + 1)%nat); [by cbn|].
      cbn [sess state with_state].
      set (y2 := {| sess := with_state (Probing (t + 1)) (sess y1);
                    outstanding := outstanding y1; reg := reg y1; clock := clock y1 |}).
      destruct (IH (t + 1)%nat y2 eq_refl) as (Hh2 & Hs2 & Ht2 & Hi2).
      cbn [sess targetIP with_state hops sessionID y2] in Hh2, Hs2, Ht2, Hi2.
      rewrite Htgt in Hh2, Hs2.
      destruct (expected cfg net n (targetIP (sess y)) (t + 1)) as [hs st].
      cbn [fst snd] in *. rewrite Hh2, Hhops, <- app_assoc.
      split; [done|]. split; [done|]. split; congruence.
    + destruct Hv as [Hhops Hst1].
      assert (Hadv : advance cfg y1 = y1) by (unfold advance; by rewrite Hst1).
      rewrite Hadv, Hst1. by cbn.
Qed.

(** With a TTL left for each one up to the ceiling, the sweep ends in
    [Completed] or [Aborted]. *)
Lemma expected_terminal n : forall target t,
  (0 < n)%nat -> (maxHops cfg < t + n)%nat ->
  terminal (expected cfg net n target t).2 = true.
Proof.
  induction n as [|n IH]; intros target t Hpos Hn; cbn [expected].
  - lia.
  - destruct (verdict cfg net t) as [h|part]; [|done].
    destruct (bool_decide _); [done|].
    destruct (decide (maxHops cfg < t + 1)%nat); [done|].
    specialize (IH target (t + 1)%nat).
    destruct (expected cfg net n target (t + 1)) as [hs st]. cbn in *.
    apply IH; lia.
Qed.

(** The whole run: the session ends, with the hops the network
    conditions determine. *)
Lemma runSession_spec c id t0 r0 :
  let y := runSession cfg net c id t0 r0 in
  let e := expected cfg net (S (maxHops cfg)) (peer c) (floor cfg) in
  hops (sess y) = e.1 /\ state (sess y) = e.2 /\ terminal (state (sess y)) = true /\
  targetIP (sess y) = peer c /\ sessionID (sess y) = id.
Proof.
  cbv zeta. unfold runSession.
  set (y0 := start cfg (initial id (peer c) (handle c) t0 r0)).
  destruct (sweep_spec (S (maxHops cfg)) (floor cfg) y0 eq_refl)
    as (Hh & Hs & Ht & Hi).
  change (targetIP (sess y0)) with (peer c) in *.
  change (sessionID (sess y0)) with id in *.
  change (hops (sess y0)) with (@nil HopResult) in *.
  rewrite Hh, Hs, Ht, Hi. repeat split; try done.
  apply expected_terminal; lia.
Qed.

(** The run is an execution of the state machine. *)
Lemma exec_app acts1 acts2 y :
  exec cfg (acts1 ++ acts2) y = exec cfg acts2 (exec cfg acts1 y).
Proof. unfold exec. apply foldl_app. Qed.

Lemma sendFresh_exec retries : forall attempt t y,
  exists acts, sendFresh cfg retries attempt t y = exec cfg acts y.
Proof.
  induction retries as [|retries IH]; intros attempt t y; cbn [sendFresh].
  - exists [ASend (deriveToken (connection (sess y)) t attempt)].
    by destruct (state (sess (send cfg _ y))).
  - destruct (state (sess (send cfg _ y))); try apply IH;
      by exists [ASend (deriveToken (connection (sess y)) t attempt)].
Qed.

Lemma probeOnce_exec y : exists acts, probeOnce cfg net y = exec cfg acts y.
Proof.
  unfold probeOnce. destruct (state (sess y)) as [|t|t|t|t| |]; try by exists [].
  destruct (sendFresh_exec (length (reg y)) 0 t y) as [acts1 ->].
  set (y1 := exec cfg acts1 y).
  assert (Hacts : forall acts2, exec cfg acts2 y1 = exec cfg (acts1 ++ acts2) y).
  { intros acts2. by rewrite exec_app. }
  destruct (net t) as [ty from d| | |d].
  - destruct (outstanding y1) as [p|]; [|by exists acts1].
    destruct (decide (d <= hopTimeout cfg)).
    + set (pkt := {| icmpType := ty; src := from; embedded := Some (token p) |}).
      destruct (outstanding (listen pkt (tick d y1))).
      * eexists. apply (Hacts [ATick d; AListen pkt;
                               ATick (hopTimeout cfg - Z.max 0 d); AExpire]).
      * eexists. apply (Hacts [ATick d; AListen pkt]).
    + eexists. apply (Hacts [ATick (hopTimeout cfg); AExpire]).
  - destruct (outstanding y1) as [p|]; [|by exists acts1].
    eexists. apply (Hacts [ATick (hopTimeout cfg); AExpire]).
  - by exists [AClose].
  - destruct (outstanding y1) as [p|]; [|by exists acts1].
    destruct (decide (d <= hopTimeout cfg)).
    + eexists. apply (Hacts [ATick d; AClose]).
    + eexists. apply (Hacts [ATick (hopTimeout cfg); AExpire;
                             ATick (d - hopTimeout cfg); AClose]).
Qed.

Lemma sweep_exec n : forall y, exists acts, sweep cfg net n y = exec cfg acts y.
Proof.
  induction n as [|n IH]; intros y; cbn [sweep]; [by exists []|].
  destruct (probeOnce_exec y) as [acts1 ->].
  assert (Hadv : advance cfg (exec cfg acts1 y) = exec cfg (acts1 ++ [AAdvance]) y).
  { by rewrite exec_app. }
  rewrite Hadv.
  destruct (state (sess (exec cfg (acts1 ++ [AAdvance]) y))); try by eexists.
  destruct (IH (exec cfg (acts1 ++ [AAdvance]) y)) as [acts2 ->].
  exists ((acts1 ++ [AAdvance]) ++ acts2). symmetry. apply exec_app.
Qed.

Lemma runSession_reachable c id t0 r0 :
  reachable cfg (runSession cfg net c id t0 r0).
Proof.
  unfold runSession.
  destruct (sweep_exec (S (maxHops cfg)) (start cfg (initial id (peer c) (handle c) t0 r0)))
    as [acts ->].
  exists id, (peer c), (handle c), t0, r0, (AStart :: acts). reflexivity.
Qed.

End Run.

Lemma example_tokens_fresh : @fresh_scheme Example.tokens.
Proof.
  intros c t a1 a2. unfold deriveToken, Example.tokens. lia.
Qed.

Lemma example_tokens'_fresh : @fresh_scheme Example.tokens'.
Proof.
  intros c t a1 a2. unfold deriveToken, Example.tokens'. lia.
Qed.

(** What [RunTrace] returns, in terms of the network conditions alone. *)
Lemma RunTrace_spec `{!TokenScheme} cfg net iface c id t0 r0 :
  fresh_scheme ->
  let e := expected cfg net (S (maxHops cfg)) (peer c) (floor cfg) in
  RunTrace cfg net iface c id t0 r0 =
    ({| res_sessionID := id; res_targetIP := peer c; res_hops := e.1;
        completed := match e.2 with Completed => true | _ => false end |},
     match e.2 with Aborted => Some ConnectionClosedError | _ => None end).
Proof.
  intros Hfresh. cbv zeta. unfold RunTrace, finalize, error_of.
  destruct (runSession_spec cfg net Hfresh c id t0 r0) as (-> & -> & _ & -> & ->).
  reflexivity.
Qed.

(** The scenarios of the design document.  The target is five hops away:
    five ordered hops, completed, the last responder is the target. *)
Example five_hops_scenario :
  let run := @RunTrace Example.tokens defaultConfig Example.five_hops "eth0"
               {| handle := 1; peer := Example.target |} "s" 0 [] in
  ttl <$> res_hops run.1 = [1; 2; 3; 4; 5]%nat /\
  rtt <$> res_hops run.1
    = Some <$> [10 * Millisecond; 25 * Millisecond; 40 * Millisecond;
                60 * Millisecond; 75 * Millisecond] /\
  responderIP <$> last (res_hops run.1) = Some (Some Example.target) /\
  completed run.1 = true /\ run.2 = None.
Proof. vm_compute. done. Qed.

(** Nothing answers below the ceiling of 30 hops: thirty hops, all timed
    out, completed, no error. *)
Example silent_scenario :
  let run := @RunTrace Example.tokens defaultConfig Example.silent "eth0"
               {| handle := 1; peer := Example.target |} "s" 0 [] in
  length (res_hops run.1) = 30%nat /\
  Forall (fun h => status h = timeout) (res_hops run.1) /\
  completed run.1 = true /\ run.2 = None.
Proof.
  cbv zeta. rewrite RunTrace_spec by apply example_tokens_fresh.
  vm_compute. split; [done|]. split; [|done]. repeat constructor.
Qed.

(** The connection closes when TTL 3 is to be probed: the two hops
    collected so far come back with the error. *)
Example closes_at_3_scenario :
  let run := @RunTrace Example.tokens defaultConfig Example.closes_at_3 "eth0"
               {| handle := 1; peer := Example.target |} "s" 0 [] in
  ttl <$> res_hops run.1 = [1; 2]%nat /\ completed run.1 = false /\
  run.2 = Some ConnectionClosedError.
Proof. vm_compute. done. Qed.

(** C6: two runs of a session under the same configuration and the same
    network conditions, on two connections to the same peer, started at
    any two instants against any two registries and with any two token
    derivations, return the same hop sequence: same length and, hop by
    hop, same TTL, responder, RTT and status; and both end the same way. *)
Theorem trace_determined_by_network (TS1 TS2 : TokenScheme) cfg net
    iface1 iface2 c1 c2 id1 id2 t1 t2 r1 r2 :
  @fresh_scheme TS1 -> @fresh_scheme TS2 -> peer c1 = peer c2 ->
  let run1 := @RunTrace TS1 cfg net iface1 c1 id1 t1 r1 in
  let run2 := @RunTrace TS2 cfg net iface2 c2 id2 t2 r2 in
  res_hops run1.1 = res_hops run2.1 /\
  length (res_hops run1.1) = length (res_hops run2.1) /\
  (forall i h1 h2,
     res_hops run1.1 !! i = Some h1 -> res_hops run2.1 !! i = Some h2 ->
     ttl h1 = ttl h2 /\ responderIP h1 = responderIP h2 /\
     rtt h1 = rtt h2 /\ status h1 = status h2) /\
  completed run1.1 = completed run2.1 /\ run1.2 = run2.2.
Proof.
  intros H1 H2 Hpeer. cbv zeta.
  rewrite (@RunTrace_spec TS1) by done. rewrite (@RunTrace_spec TS2) by done.
  rewrite Hpeer. cbn [fst snd res_hops completed].
  split; [done|]. split; [done|]. split; [|done].
  intros i h1 h2 Hi1 Hi2. rewrite Hi1 in Hi2. by injection Hi2 as ->.
Qed.

(** The five-hop path of the examples, traced on two connections with
    two token derivations, at two instants, against registries of which
    one already holds the token the first attempt derives. *)
Lemma trace_determined_by_network_witness :
  let c1 := {| handle := 1; peer := Example.target |} in
  let c2 := {| handle := 2; peer := Example.target |} in
  let busy := [(@deriveToken Example.tokens 1%nat 1%nat 0%nat,
                {| owner := 9; probe := {| probe_ttl := 1; token := 0; sentAt := 0 |};
                   deadline := 10 ^ 12 |})] in
  res_hops (@RunTrace Example.tokens defaultConfig Example.five_hops "eth0" c1 "a" 0 busy).1
  = res_hops (@RunTrace Example.tokens' defaultConfig Example.five_hops "eth1" c2 "b" 77 []).1.
Proof.
  intros c1 c2 busy.
  exact (proj1 (trace_determined_by_network Example.tokens Example.tokens'
           defaultConfig Example.five_hops "eth0" "eth1" c1 c2 "a" "b" 0 77 busy []
           example_tokens_fresh example_tokens'_fresh eq_refl)).
Defined.



End EngineFacts.
